(** * Chunked CSV/TSV import into SQLite: [preprocess/create_db.py]

    A shallow embedding of [import_with_progress] and of the library
    calls it is made of, followed by the properties of the import
    pipeline: delimiter sniffing, chunked reading, replace-then-append
    writes, the progress estimate, post-load indexing and the release of
    the connection.

    The script is a straight-line orchestration of [os], [pandas],
    [sqlite3] and [tqdm].  The embedding keeps the orchestration as it is
    written (one monadic definition, statement by statement) and gives
    each library call a small executable model, documented where it is
    defined. *)

From Stdlib Require Import ZArith Ascii String.
From stdpp Require Import base option list gmap strings sorting.

Set Warnings "-clear-no-such-hyp".
Local Open Scope Z_scope.

(** ** Data *)

(** A cell of a data frame: [None] is pandas' missing value (NaN). *)
Definition cell : Type := option string.

(** The input file, as the script observes it: its size in bytes
    ([os.path.getsize]), its first line as text ([f.readline()]), and the
    records pandas' tokenizer cuts it into for a given separator, header
    record first, blank lines already skipped.  The tokenizer itself
    (quoting, escapes, line endings) is outside the script. *)
Record csv_file := CsvFile {
  st_size : N;
  first_line : string;
  tokenize : ascii → list (list string)
}.

Record DataFrame := mkDataFrame {
  columns : list string;
  rows : list (list cell)
}.

(** Exceptions the run can meet.  [OutOfFuel] is not a Python exception:
    it marks exhaustion of the iteration bound of [for_chunks] and is
    shown unreachable ([for_chunks_fuel]). *)
Inductive exn :=
| FileNotFoundError
| OperationalError      (* sqlite3 *)
| EmptyDataError        (* pandas: no columns to parse *)
| ParserError           (* pandas: expected n fields, saw m *)
| ValueError            (* pandas: chunksize must be >= 1 *)
| StopIteration
| OutOfFuel.

#[global] Instance exn_eq_dec : EqDecision exn.
Proof. solve_decision. Defined.

(** ** Delimiter detection (lines 17-23) *)

Definition tab : ascii := "009"%char.
Definition comma : ascii := ","%char.

(** [c in s] for a one-character needle. *)
Fixpoint char_in (c : ascii) (s : string) : bool :=
  match s with
  | EmptyString => false
  | String a s' => if decide (a = c) then true else char_in c s'
  end.

Definition detect_sep (first_line : string) : ascii :=
  if char_in tab first_line then tab else comma.

(** ** pandas: [read_csv] *)

(** A record shorter than the header is completed with missing values
    (the tokenizer closes the missing trailing fields). *)
Definition pad (n : nat) (r : list string) : list cell :=
  (Some <$> r) ++ replicate (n - length r) None.

Definition fits (names : list string) (r : list string) : bool :=
  bool_decide (length r ≤ length names)%nat.

(** The number of fields the tokenizer expects of a record.  It takes
    the first data record as it comes: when that record has more fields
    than the header has names, the surplus leading fields are an implicit
    index and every later record is held to the same number of fields. *)
Definition expected_fields (names : list string)
    (data : list (list string)) : nat :=
  match data with
  | [] => length names
  | r :: _ => length names `max` length r
  end.

(** A record as a row of the frame: completed to the expected number of
    fields, the implicit index (the leading fields without a name) left
    out of the columns. *)
Definition frame_row (names : list string) (width : nat) (r : list string)
    : list cell :=
  drop (width - length names) (pad width r).

(** One [read(nrows)] of the parser over the records not yet consumed.
    - no record left: the first read still answers with an empty frame
      carrying the header's columns ([_first_chunk]); a later read raises
      [StopIteration];
    - a record with more fields than expected makes the tokenizer fail
      ("Expected n fields, saw m");
    - otherwise the records come back as rows, short ones padded. *)
Definition engine_read (names : list string) (width : nat) (first : bool)
    (nrows : nat) (pending : list (list string))
    : (exn + DataFrame) * list (list string) :=
  match take nrows pending with
  | [] =>
      if first then (inr (mkDataFrame names []), pending)
      else (inl StopIteration, pending)
  | batch =>
      if forallb (λ r, bool_decide (length r ≤ width)%nat) batch
      then (inr (mkDataFrame names (frame_row names width <$> batch)),
            drop nrows pending)
      else (inl ParserError, drop nrows pending)
  end.

(** The header: the first record; a file without one has no columns.
    The names are taken as they stand in the file: pandas renames a
    repeated name ([a], [a.1]) and names an empty one ([Unnamed: 0]), so
    what is said of the columns below is said of headers whose names are
    distinct and not empty ([plain_header]). *)
Definition parse_header (f : csv_file) (sep : ascii)
    : exn + (list string * list (list string)) :=
  match tokenize f sep with
  | [] => inl EmptyDataError
  | [] :: _ => inl EmptyDataError
  | names :: data => inr (names, data)
  end.

(** [pd.read_csv(f, sep=sep, nrows=n)] *)
Definition read_csv_nrows (f : csv_file) (sep : ascii) (nrows : nat)
    : exn + DataFrame :=
  match parse_header f sep with
  | inl e => inl e
  | inr (names, data) =>
      fst (engine_read names (expected_fields names data) true nrows data)
  end.

(** [pd.read_csv(f, sep=sep, chunksize=c)]: a lazy reader. *)
Record TextFileReader := mkReader {
  names : list string;
  width : nat;
  chunksize : nat;
  _first_chunk : bool;
  pending : list (list string)
}.

Definition read_csv_chunks (f : csv_file) (sep : ascii) (chunksize : Z)
    : exn + TextFileReader :=
  if decide (chunksize < 1) then inl ValueError
  else match parse_header f sep with
       | inl e => inl e
       | inr (names, data) =>
           inr (mkReader names (expected_fields names data)
                         (Z.to_nat chunksize) true data)
       end.

(** [next(reader)] *)
Definition reader_next (r : TextFileReader)
    : (exn + DataFrame) * TextFileReader :=
  let '(res, rest) :=
    engine_read (names r) (width r) (_first_chunk r) (chunksize r)
                (pending r) in
  (res, mkReader (names r) (width r) (chunksize r) false rest).

(** [df[col]]: the values of the column named [col]. *)
Definition column_values (df : DataFrame) (col : string) : list cell :=
  match list_find (λ c, c = col) (columns df) with
  | Some (j, _) => (λ r, default None (r !! j)) <$> rows df
  | None => []
  end.

(** ** The destination database *)

(** A table: its columns, its rows, and its indexes, each with its name
    and the column it is on.  The database maps a table's name, in the
    form SQLite resolves names to (it folds case and reads a schema
    prefix), to the table; [table_name] is taken to be in that form: of a
    name SQLite does not take as it stands nothing is said beyond the
    statements that contain it failing ([drop_fails], [count_fails],
    [create_index_fails]). *)
Record sql_table := mkTable {
  tbl_columns : list string;
  tbl_rows : list (list cell);
  tbl_indexes : list (string * string)
}.

Inductive if_exists_mode := Replace | Append.

(** [DROP TABLE IF EXISTS t] *)
Definition drop_table (t : string) (db : gmap string sql_table)
    : gmap string sql_table := delete t db.

(** [df.to_sql(t, conn, if_exists=mode, index=False)].  With [replace]
    the table is dropped and recreated from the frame's columns; with
    [append] rows are added to the existing table (created if absent),
    and a frame whose columns are not the table's is refused. *)
Definition to_sql (df : DataFrame) (t : string) (mode : if_exists_mode)
    (db : gmap string sql_table) : exn + gmap string sql_table :=
  match mode, db !! t with
  | Append, Some tb =>
      if decide (columns df = tbl_columns tb)
      then inr (<[t := mkTable (tbl_columns tb) (tbl_rows tb ++ rows df)
                               (tbl_indexes tb)]> db)
      else inl OperationalError
  | _, _ => inr (<[t := mkTable (columns df) (rows df) []]> db)
  end.

(** [SELECT COUNT( * ) FROM t] *)
Definition select_count (t : string) (db : gmap string sql_table)
    : exn + nat :=
  match db !! t with
  | Some tb => inr (length (tbl_rows tb))
  | None => inl OperationalError
  end.

(** The names of the indexes of a database: one name space for all its
    tables. *)
Definition has_index (name : string) (db : gmap string sql_table) : Prop :=
  map_Exists (λ _ tb, name ∈ (tbl_indexes tb).*1) db.

#[global] Instance has_index_dec name db : Decision (has_index name db) :=
  @map_Exists_dec _ _ _ _ _ _ _ _ _ _ _ _
    (λ _ tb, name ∈ (tbl_indexes tb).*1)
    (λ _ tb, decide (name ∈ (tbl_indexes tb).*1)) db.

(** [CREATE INDEX IF NOT EXISTS name ON t(col)]: refused when there is no
    table [t] or when a table is called [name]; nothing is done when an
    index called [name] exists, on whatever table and column; refused
    when [t] has no column [col]. *)
Definition create_index (name t col : string) (db : gmap string sql_table)
    : exn + gmap string sql_table :=
  match db !! t with
  | Some tb =>
      if decide (is_Some (db !! name)) then inl OperationalError
      else if decide (has_index name db) then inr db
      else if decide (col ∈ tbl_columns tb)
      then inr (<[t := mkTable (tbl_columns tb) (tbl_rows tb)
                               (tbl_indexes tb ++ [(name, col)])]> db)
      else inl OperationalError
  | None => inl OperationalError
  end.

(** ** The environment of a run

    What the libraries decide and the script does not: the type pandas
    infers for a column of sampled values, and which of the database
    operations fail (an unusable database path; a table name that does
    not stand as an identifier in the statements it is pasted into, or a
    locked database; a full disk or a refused row; a column name SQLite
    rejects). *)

(** The types [read_csv] gives a column when, as here, it is not asked to
    parse dates: a column of dates or times comes back as [object]. *)
Inductive dtype := int64 | uint64 | float64 | bool_ | object_.

(** [dtype.name] *)
Definition dtype_name (d : dtype) : string :=
  match d with
  | int64 => "int64"
  | uint64 => "uint64"
  | float64 => "float64"
  | bool_ => "bool"
  | object_ => "object"
  end.

Record environment := mkEnv {
  infer_dtype : list cell → dtype;
  connect_fails : bool;
  drop_fails : bool;                  (* [DROP TABLE IF EXISTS] *)
  to_sql_fails : nat → bool;          (* by chunk number *)
  count_fails : bool;                 (* [SELECT COUNT] *)
  create_index_fails : string → bool  (* by column *)
}.

(** ** State, events and the monad of the run *)

Inductive connection := Unbound | Open | Closed.

Inductive event :=
| EvConnect
| EvDropTable
| EvCommit
| EvTqdm (total : Z)
| EvChunk (i : nat) (nrows : nat)       (* the reader yielded chunk i *)
| EvToSql (i : nat) (mode : if_exists_mode)   (* to_sql called on chunk i *)
| EvUpdate (n : Z)                      (* pbar.n after the update *)
| EvCreateIndex (col : string)          (* the statement was executed *)
| EvIndexError
| EvClose.

#[global] Instance if_exists_mode_eq_dec : EqDecision if_exists_mode.
Proof. solve_decision. Defined.
#[global] Instance event_eq_dec : EqDecision event.
Proof. solve_decision. Defined.
#[global] Instance connection_eq_dec : EqDecision connection.
Proof. solve_decision. Defined.

(** [database] is the content of the file [db_name]; every statement the
    script issues runs outside an open transaction ([to_sql] commits its
    own inserts), so a statement's effect is durable when it returns and
    the explicit [conn.commit()] calls are recorded as events only.
    [log] holds the events, latest first. *)
Record state := mkState {
  database : gmap string sql_table;
  conn : connection;
  pbar_n : Z;
  log : list event
}.

Definition trace (s : state) : list event := rev (log s).

Inductive result (A : Type) := Ok (a : A) | Raise (e : exn).
Arguments Ok {A} a.
Arguments Raise {A} e.

Definition M (A : Type) : Type := state → result A * state.

#[global] Instance M_ret : MRet M := λ A a s, (Ok a, s).
#[global] Instance M_bind : MBind M := λ A B k m s,
  match m s with
  | (Ok a, s') => k a s'
  | (Raise e, s') => (Raise e, s')
  end.

Definition raise {A} (e : exn) : M A := λ s, (Raise e, s).

Definition lift {A} (r : exn + A) : M A :=
  match r with inl e => raise e | inr a => mret a end.

(** [try: m except Exception: h] *)
Definition try_except {A} (m : M A) (h : exn → M A) : M A := λ s,
  match m s with
  | (Ok a, s') => (Ok a, s')
  | (Raise e, s') => h e s'
  end.

Definition emit (e : event) : M unit := λ s,
  (Ok tt, mkState (database s) (conn s) (pbar_n s) (e :: log s)).

Definition get_database : M (gmap string sql_table) := λ s, (Ok (database s), s).
Definition put_database (db : gmap string sql_table) : M unit := λ s,
  (Ok tt, mkState db (conn s) (pbar_n s) (log s)).
Definition put_conn (c : connection) : M unit := λ s,
  (Ok tt, mkState (database s) c (pbar_n s) (log s)).
Definition get_pbar_n : M Z := λ s, (Ok (pbar_n s), s).
Definition put_pbar_n (n : Z) : M unit := λ s,
  (Ok tt, mkState (database s) (conn s) n (log s)).

(** ** The statements of [import_with_progress] *)

(** [os.path.getsize(import_file)] *)
Definition os_path_getsize (import_file : option csv_file) : M Z :=
  match import_file with
  | None => raise FileNotFoundError
  | Some f => mret (Z.of_N (st_size f))
  end.

(** [with open(import_file) as f: f.readline()] *)
Definition open_readline (import_file : option csv_file) : M string :=
  match import_file with
  | None => raise FileNotFoundError
  | Some f => mret (first_line f)
  end.

(** [conn = sqlite3.connect(db_name)] *)
Definition sqlite3_connect (env : environment) : M unit :=
  if connect_fails env then raise OperationalError
  else put_conn Open ;; emit EvConnect.

Definition pd_read_csv_nrows (import_file : option csv_file) (sep : ascii)
    (nrows : nat) : M DataFrame :=
  match import_file with
  | None => raise FileNotFoundError
  | Some f => lift (read_csv_nrows f sep nrows)
  end.

Definition pd_read_csv_chunks (import_file : option csv_file) (sep : ascii)
    (chunksize : Z) : M TextFileReader :=
  match import_file with
  | None => raise FileNotFoundError
  | Some f => lift (read_csv_chunks f sep chunksize)
  end.

(** [cursor.execute(f"DROP TABLE IF EXISTS {table_name}")] *)
Definition execute_drop_table (env : environment) (table_name : string)
    : M unit :=
  if drop_fails env then raise OperationalError
  else
    db ← get_database;
    put_database (drop_table table_name db) ;;
    emit EvDropTable.

Definition conn_commit : M unit := emit EvCommit.

(** [tqdm(total=file_size, ...)]: a bar at 0. *)
Definition tqdm (total : Z) : M unit :=
  put_pbar_n 0 ;; emit (EvTqdm total).

(** [pbar.update(k)]: [self.n += k] *)
Definition pbar_update (k : Z) : M unit :=
  n ← get_pbar_n;
  put_pbar_n (n + k) ;;
  emit (EvUpdate (n + k)).

(** [chunk.to_sql(table_name, conn, if_exists=..., index=False)].
    [to_sql] first sets the table up, in a transaction of its own
    (dropped and created again with [replace], created when absent with
    [append]), then inserts the rows: a write the environment refuses
    leaves the table as set up, without the rows of the chunk.  The
    call is logged when it is made. *)
Definition chunk_to_sql (env : environment) (i : nat) (chunk : DataFrame)
    (table_name : string) (mode : if_exists_mode) : M unit :=
  emit (EvToSql i mode) ;;
  db ← get_database;
  if to_sql_fails env i then
    db' ← lift (to_sql (mkDataFrame (columns chunk) []) table_name mode db);
    put_database db' ;;
    raise OperationalError
  else
    db' ← lift (to_sql chunk table_name mode db);
    put_database db'.

(** [cursor.execute(f"SELECT COUNT( * ) FROM {table_name}")] and
    [cursor.fetchone()[0]] *)
Definition execute_select_count (env : environment) (table_name : string)
    : M nat :=
  if count_fails env then raise OperationalError
  else
    db ← get_database;
    lift (select_count table_name db).

(** [index_name = f"idx_{table_name}_{col}"] *)
Definition index_name (table_name col : string) : string :=
  "idx_" +:+ table_name +:+ "_" +:+ col.

(** [cursor.execute(f"CREATE INDEX IF NOT EXISTS {index_name} ON
    {table_name}({col})")] *)
Definition execute_create_index (env : environment)
    (table_name col : string) : M unit :=
  if create_index_fails env col then raise OperationalError
  else
    db ← get_database;
    db' ← lift (create_index (index_name table_name col) table_name col db);
    put_database db' ;;
    emit (EvCreateIndex col).

(** [conn.close()] *)
Definition conn_close : M unit := put_conn Closed ;; emit EvClose.

(** Lines 49-60: the body of the loop over the chunks. *)
Definition process_chunk (env : environment) (table_name : string)
    (chunksize file_size : Z) (i : nat) (chunk : DataFrame) : M unit :=
  let if_exists := if decide (i = 0%nat) then Replace else Append in
  chunk_to_sql env i chunk table_name if_exists ;;
  n ← get_pbar_n;
  pbar_update (Z.min (chunksize * Z.of_nat (length (columns chunk)) * 8)
                     (file_size - n)) ;;
  conn_commit.

(** [for i, chunk in enumerate(chunks): body]: [next] until
    [StopIteration].  [fuel] bounds the number of calls to [next]. *)
Fixpoint for_chunks (fuel : nat) (body : nat → DataFrame → M unit)
    (i : nat) (chunks : TextFileReader) : M unit :=
  match fuel with
  | O => raise OutOfFuel
  | S fuel' =>
      match reader_next chunks with
      | (inl StopIteration, _) => mret tt
      | (inl e, _) => raise e
      | (inr chunk, chunks') =>
          emit (EvChunk i (length (rows chunk))) ;;
          body i chunk ;;
          for_chunks fuel' body (S i) chunks'
      end
  end.

(** Every call to [next] but the first and the last consumes a record. *)
Definition enough_fuel (chunks : TextFileReader) : nat :=
  S (S (length (pending chunks))).

(** Line 72: [first_chunk[col].dtype.name in ['int64', 'float64',
    'datetime64[ns]']] *)
Definition indexable_dtypes : list string :=
  ["int64"; "float64"; "datetime64[ns]"]%string.

(** [first_chunk[col].dtype]; a column without a value is [object]. *)
Definition column_dtype (env : environment) (df : DataFrame) (col : string)
    : dtype :=
  match column_values df col with
  | [] => object_
  | cells => infer_dtype env cells
  end.

Definition indexable (env : environment) (df : DataFrame) (col : string)
    : bool :=
  bool_decide (dtype_name (column_dtype env df col) ∈ indexable_dtypes).

(** Lines 71-75: the loop over [first_chunk.columns[:3]]. *)
Fixpoint index_columns (env : environment) (table_name : string)
    (first_chunk : DataFrame) (cols : list string) : M unit :=
  match cols with
  | [] => mret tt
  | col :: cols' =>
      (if indexable env first_chunk col
       then execute_create_index env table_name col
       else mret tt) ;;
      index_columns env table_name first_chunk cols'
  end.

(** Lines 47-60: the chunk reader and the loop over the chunks. *)
Definition load_chunks (env : environment) (import_file : option csv_file)
    (table_name : string) (sep : ascii) (chunksize file_size : Z) : M unit :=
  chunks ← pd_read_csv_chunks import_file sep chunksize;
  for_chunks (enough_fuel chunks)
             (process_chunk env table_name chunksize file_size) 0 chunks.

(** Lines 70-78: the inner [try], around the whole loop. *)
Definition create_indexes (env : environment) (table_name : string)
    (first_chunk : DataFrame) : M unit :=
  try_except
    (index_columns env table_name first_chunk (take 3 (columns first_chunk)) ;;
     conn_commit)
    (λ _, emit EvIndexError).

(** Lines 62-78: the row count that is reported, then the indexes. *)
Definition count_and_index (env : environment) (table_name : string)
    (first_chunk : DataFrame) : M nat :=
  row_count ← execute_select_count env table_name;
  create_indexes env table_name first_chunk ;;
  mret row_count.

(** Lines 12-78: the body of the outer [try]. It returns the row count
    it reports. *)
Definition import_body (env : environment) (import_file : option csv_file)
    (table_name : string) (chunksize : Z) : M nat :=
  file_size ← os_path_getsize import_file;
  first_line ← open_readline import_file;
  let sep := detect_sep first_line in
  sqlite3_connect env ;;
  first_chunk ← pd_read_csv_nrows import_file sep 1000;
  execute_drop_table env table_name ;;
  conn_commit ;;
  tqdm file_size ;;
  load_chunks env import_file table_name sep chunksize file_size ;;
  count_and_index env table_name first_chunk.

(** How a run ends: [DONE] with the reported row count, or [FAILED] with
    the exception one of the two outer handlers caught. *)
Inductive outcome := DONE (row_count : nat) | FAILED (e : exn).

Definition initial (db : gmap string sql_table) : state :=
  mkState db Unbound 0 [].

(** [finally: if 'conn' in locals() and conn: conn.close()] *)
Definition finally_close (s : state) : state :=
  match conn s with
  | Open => snd (conn_close s)
  | _ => s
  end.

(** The whole function, run on the database stored at [db_name]. *)
Definition import_with_progress (env : environment)
    (import_file : option csv_file) (db : gmap string sql_table)
    (table_name : string) (chunksize : Z) : outcome * state :=
  let '(r, s) := import_body env import_file table_name chunksize (initial db) in
  (match r with Ok n => DONE n | Raise e => FAILED e end, finally_close s).

(** ** Sample runs *)

Definition is_digit (a : ascii) : bool :=
  bool_decide (48 ≤ nat_of_ascii a ≤ 57)%nat.

Fixpoint all_digits (s : string) : bool :=
  match s with
  | EmptyString => true
  | String a s' => is_digit a && all_digits s'
  end.

(** A stand-in for pandas' inference on the columns of the sample runs:
    a non-empty column of unsigned decimal literals is [int64], anything
    else is [object]. *)
Definition digits_infer (cells : list cell) : dtype :=
  match cells with
  | [] => object_
  | _ =>
      if forallb (λ c, match c with
                       | Some s => negb (bool_decide (s = ""%string)) && all_digits s
                       | None => false
                       end) cells
      then int64 else object_
  end.

Definition quiet : environment :=
  mkEnv digits_infer false false (λ _, false) false (λ _, false).

(** A comma-separated file without quoting: the same records whatever
    the separator asked for is enough for the sample runs, which never
    contain a tab. *)
Definition plain_file (size : N) (header : string)
    (records : list (list string)) : csv_file :=
  CsvFile size header (λ _, records).

Definition ex_file : csv_file :=
  plain_file 40 "id,amount,name"
    [ ["id"; "amount"; "name"];
      ["1"; "10"; "ann"]; ["2"; "20"; "bob"]; ["3"; "30"; "cy"];
      ["4"; "40"; "dee"]; ["5"; "50"; "eve"] ]%string.

(** A file that holds its header line and nothing else. *)
Definition header_only : csv_file :=
  plain_file 15 "id,amount,name" [ ["id"; "amount"; "name"] ]%string.

(** ** Notions the properties are stated with *)

(** [list(reader)]: the chunks a reader yields, and the exception that
    ends the iteration ([StopIteration] when the input is exhausted). *)
Fixpoint drain (fuel : nat) (r : TextFileReader) : list DataFrame * exn :=
  match fuel with
  | O => ([], OutOfFuel)
  | S fuel' =>
      match reader_next r with
      | (inl e, _) => ([], e)
      | (inr chunk, r') =>
          let '(cs, e) := drain fuel' r' in (chunk :: cs, e)
      end
  end.

Definition chunks_of (r : TextFileReader) : list DataFrame * exn :=
  drain (enough_fuel r) r.

(** ceil(r / c) on naturals *)
Definition ceil_div (r c : nat) : nat := ((r + c - 1) / c)%nat.

Definition chunk_lengths (cs : list DataFrame) : list nat :=
  (λ c, length (rows c)) <$> cs.

(** The rows of a list of chunks, in the order they were yielded. *)
Definition rows_of (cs : list DataFrame) : list (list cell) :=
  concat (rows <$> cs).

(** The chunk reader's contract as the specification words it: ceil(R/C)
    chunks, in file order, at most C rows each, R rows in all. *)
Definition chunking_as_specified (f : csv_file) (sep : ascii) (c : nat)
    : Prop :=
  ∀ names0 data r,
    parse_header f sep = inr (names0, data) →
    read_csv_chunks f sep (Z.of_nat c) = inr r →
    let cs := fst (chunks_of r) in
    length cs = ceil_div (length data) c ∧
    rows_of cs = pad (length names0) <$> data ∧
    Forall (λ ch, length (rows ch) ≤ c)%nat cs ∧
    sum_list (chunk_lengths cs) = length data.

(** A state predicate that a computation keeps, however it ends. *)
Definition preserves {A} (I : state → Prop) (m : M A) : Prop :=
  ∀ s, I s → I (snd (m s)).

(** The state in which the script enters the [with tqdm(...)] block:
    the table dropped, the drop committed, the bar at 0. *)
Definition at_load (db : gmap string sql_table) (table_name : string)
    (file_size : Z) : state :=
  mkState (drop_table table_name db) Open 0
          [EvTqdm file_size; EvCommit; EvDropTable; EvConnect].

(** The events logged since the log was [l0]. *)
Definition extends (l0 : list event) (s : state) : Prop :=
  ∃ l, log s = l ++ l0.

(** The successive values of the progress estimate ([pbar.n]): 0 when the
    bar is created, then its value after each update. *)
Definition progress_of (e : event) : option Z :=
  match e with
  | EvTqdm _ => Some 0
  | EvUpdate n => Some n
  | _ => None
  end.

Definition progress_values (tr : list event) : list Z := omap progress_of tr.

(** The invariant of the progress bar, once it exists, on its current
    value [n] and the log [l]. *)
Definition progress_ok (size n : Z) (l : list event) : Prop :=
  let vs := progress_values (rev l) in
  0 ≤ n ≤ size ∧
  head vs = Some 0 ∧
  StronglySorted Z.le vs ∧
  Forall (λ v, 0 ≤ v ≤ n) vs.

Definition progress_inv (size : Z) (s : state) : Prop :=
  progress_ok size (pbar_n s) (log s).

(** The number of rows of table [t], if it exists. *)
Definition row_count_of (db : gmap string sql_table) (t : string)
    : option nat :=
  (λ tb, length (tbl_rows tb)) <$> db !! t.

(** Events of the chunk loop: a chunk is read, a chunk is written. *)
Definition chunk_event (e : event) : Prop :=
  match e with
  | EvChunk _ _ | EvToSql _ _ => True
  | _ => False
  end.

(** In a trace, every read or write of a chunk comes after a
    [DROP TABLE] that is followed at once by a commit. *)
Definition drop_precedes_chunks (tr : list event) : Prop :=
  ∀ pre e post,
    tr = pre ++ e :: post → chunk_event e →
    ∃ p1 p2, pre = p1 ++ EvDropTable :: EvCommit :: p2.

(** [to_sql] was not called: no write of a chunk was attempted. *)
Definition nothing_written (tr : list event) : Prop :=
  ∀ i mode, EvToSql i mode ∉ tr.

(** The drop as the specification words it: whenever the input file
    exists, the table is dropped, so that a run that writes no chunk
    leaves no table behind. *)
Definition drop_as_specified (env : environment) (f : csv_file)
    (db : gmap string sql_table) (t : string) (c : Z) : Prop :=
  let s := snd (import_with_progress env (Some f) db t c) in
  drop_precedes_chunks (trace s) ∧
  EvDropTable ∈ trace s ∧
  (nothing_written (trace s) → database s !! t = None).

(** A file whose second data record has a field too many. *)
Definition ragged_file : csv_file :=
  plain_file 20 "a,b" [ ["a"; "b"]; ["1"; "2"]; ["3"; "4"; "5"] ]%string.

Definition old_table : sql_table :=
  mkTable ["x"]%string [[Some "kept"%string]] [].

(** The loop of [for_chunks] over chunks already read: [cs] are the
    chunks the reader yields and [e] the exception that ends its
    iteration. *)
Fixpoint write_all (body : nat → DataFrame → M unit) (i : nat)
    (cs : list DataFrame) (e : exn) : M unit :=
  match cs with
  | [] => match e with StopIteration => mret tt | _ => raise e end
  | ch :: cs' =>
      emit (EvChunk i (length (rows ch))) ;;
      body i ch ;;
      write_all body (S i) cs' e
  end.

(** How the loop ends when the reader's iteration ends with [e]. *)
Definition loop_result (e : exn) : result unit :=
  match e with StopIteration => Ok tt | _ => Raise e end.

(** The table that holds the chunks [cs] and no index. *)
Definition table_of (names0 : list string) (cs : list DataFrame)
    : option sql_table :=
  match cs with
  | [] => None
  | _ => Some (mkTable names0 (rows_of cs) [])
  end.





(** The header as pandas keeps it: names that are distinct and not
    empty (a repeated name is renamed, an empty one is given a name). *)
Definition plain_header (names0 : list string) : Prop :=
  NoDup names0 ∧ ""%string ∉ names0.



(** The table is absent, or freshly made by this run: the header's
    columns and no index yet. *)
Definition fresh_table (t : string) (names0 : list string) (s : state)
    : Prop :=
  database s !! t = None ∨
  ∃ tb, database s !! t = Some tb ∧ tbl_columns tb = names0
        ∧ tbl_indexes tb = [].

(** The table exists with these columns and rows. *)
Definition table_holds (t : string) (names0 : list string)
    (rs : list (list cell)) (s : state) : Prop :=
  ∃ tb, database s !! t = Some tb ∧ tbl_columns tb = names0
        ∧ tbl_rows tb = rs.





(** The empty-input scenario as the specification words it: no chunk,
    yet a table with the header's columns and no rows, no indexing
    failure, and a run that reaches DONE with a count of 0. *)
Definition empty_input_as_specified (env : environment) (f : csv_file)
    (db : gmap string sql_table) (t : string) (c : Z) : Prop :=
  let run := import_with_progress env (Some f) db t c in
  ∀ names0,
    parse_header f (detect_sep (first_line f)) = inr (names0, []) →
    (∀ i n, EvChunk i n ∉ trace (snd run)) ∧
    database (snd run) !! t = Some (mkTable names0 [] []) ∧
    (EvIndexError ∉ trace (snd run)) ∧
    fst run = DONE 0.

(** The malformed-row scenario as the specification words it: a data row
    with one field fewer than the header makes the run fail. *)
Definition short_row_as_specified (env : environment) (f : csv_file)
    (db : gmap string sql_table) (t : string) (c : Z) : Prop :=
  ∀ names0 data k r,
    parse_header f (detect_sep (first_line f)) = inr (names0, data) →
    data !! k = Some r →
    S (length r) = length names0 →
    ∃ e, fst (import_with_progress env (Some f) db t c) = FAILED e.

(** A file whose first data row has a field more than the header: the
    first field of each row is an implicit index. *)
Definition indexed_file : csv_file :=
  plain_file 40 "id,amount,name"
    [ ["id"; "amount"; "name"];
      ["7"; "1"; "10"; "ann"]; ["8"; "2"; "20"] ]%string.

(** A file whose second data row lacks its last field. *)
Definition short_row_file : csv_file :=
  plain_file 30 "id,amount,name"
    [ ["id"; "amount"; "name"]; ["1"; "10"; "ann"]; ["2"; "20"] ]%string.

(** A file of 1200 good records followed by one with a field too many. *)
Definition late_ragged_file : csv_file :=
  plain_file 5000 "a,b"
    (["a"; "b"]%string
     :: (replicate 1200 ["1"; "2"]%string ++ [ ["3"; "4"; "5"]%string ])).

(** The number of calls to [next] a reader can still answer before it
    raises [StopIteration]. *)
Definition reader_measure (r : TextFileReader) : nat :=
  (length (pending r) + if _first_chunk r then 2 else 1)%nat.


(** The environment [env] with every write accepted. *)
Definition no_write_faults (env : environment) : environment :=
  mkEnv (infer_dtype env) (connect_fails env) (drop_fails env) (λ _, false)
        (count_fails env) (create_index_fails env).

(** The number of bytes one chunk is taken to stand for (line 57). *)
Definition progress_step (chunksize : Z) (names0 : list string) : Z :=
  chunksize * Z.of_nat (length names0) * 8.

(** * Properties *)

(** ** Delimiter detection *)

Lemma char_in_spec c s :
  char_in c s = true ↔ ∃ pre post, s = (pre +:+ String c post)%string.
Proof.
  induction s as [|a s IH]; simpl.
  - split; [done|]. intros ([|??] & post & H); discriminate.
  - destruct (decide (a = c)) as [->|Hne].
    + split; [|done]. intros _. by exists ""%string, s.
    + rewrite IH. split.
      * intros (pre & post & ->). by exists (String a pre), post.
      * intros (pre & post & H).
        destruct pre as [|b pre]; unfold String.append in H; simpl in H;
          fold String.append in H; [congruence|simplify_eq].
        by exists pre, post.
Qed.

(** C2. The detector answers tab exactly when the header line contains a
    tab character, and comma in every other case. *)
Theorem detect_sep_tab_iff (f : csv_file) :
  let has_tab := ∃ pre post,
    first_line f = (pre +:+ String tab post)%string in
  (detect_sep (first_line f) = tab ↔ has_tab) ∧
  (¬ has_tab → detect_sep (first_line f) = comma).
Proof.
  simpl. unfold detect_sep.
  destruct (char_in tab (first_line f)) eqn:E.
  - apply char_in_spec in E. split; [done|]. by intros [].
  - assert (¬ ∃ pre post, first_line f = (pre +:+ String tab post)%string) as Hn.
    { intros H. apply char_in_spec in H. congruence. }
    split; [|done]. split; [discriminate|done].
Qed.

Local Close Scope Z_scope.

(** ** The chunk reader *)

Lemma ceil_div_spec r c :
  1 ≤ c → r ≤ ceil_div r c * c ∧ ceil_div r c * c < r + c.
Proof.
  intros Hc. unfold ceil_div.
  pose proof (Nat.div_mod_eq (r + c - 1) c) as Hdm.
  pose proof (Nat.mod_upper_bound (r + c - 1) c) as Hub.
  split; nia.
Qed.

Lemma ceil_div_pred r c : 1 ≤ r → 1 ≤ c → ceil_div r c = S ((r - 1) / c).
Proof.
  intros Hr Hc. unfold ceil_div.
  replace (r + c - 1) with ((r - 1) + 1 * c) by lia.
  rewrite Nat.div_add by lia. lia.
Qed.

Lemma ceil_div_step r c :
  1 ≤ r → 1 ≤ c → ceil_div r c = S (ceil_div (r - c) c).
Proof.
  intros Hr Hc. rewrite ceil_div_pred by done. f_equal.
  destruct (decide (r ≤ c)) as [Hle|Hgt].
  - replace (r - c) with 0 by lia. unfold ceil_div.
    rewrite !Nat.div_small; lia.
  - destruct (decide (r - c = 0)); [lia|].
    rewrite ceil_div_pred by lia.
    replace (r - 1) with ((r - c - 1) + 1 * c) by lia.
    rewrite Nat.div_add by lia. lia.
Qed.

Lemma engine_read_cases names0 w fl n data :
  1 ≤ n →
  engine_read names0 w fl n data =
    match data with
    | [] => (if fl then inr (mkDataFrame names0 []) else inl StopIteration, [])
    | _ =>
        if forallb (λ r, bool_decide (length r ≤ w)) (take n data)
        then (inr (mkDataFrame names0 (frame_row names0 w <$> take n data)),
              drop n data)
        else (inl ParserError, drop n data)
    end.
Proof.
  intros Hn. destruct n as [|n]; [lia|].
  destruct data as [|r data]; [by destruct fl|done].
Qed.

Lemma engine_read_header names0 fl n data :
  1 ≤ n →
  engine_read names0 (length names0) fl n data =
    match data with
    | [] => (if fl then inr (mkDataFrame names0 []) else inl StopIteration, [])
    | _ =>
        if forallb (fits names0) (take n data)
        then (inr (mkDataFrame names0 (pad (length names0) <$> take n data)),
              drop n data)
        else (inl ParserError, drop n data)
    end.
Proof.
  intros Hn. rewrite engine_read_cases by done.
  destruct data as [|r data]; [done|].
  change (λ r0 : list string, bool_decide (length r0 ≤ length names0))
    with (fits names0).
  assert (frame_row names0 (length names0) <$> take n (r :: data)
          = pad (length names0) <$> take n (r :: data)) as ->; [|done].
  apply list_fmap_ext. intros _ x _. unfold frame_row.
  by rewrite Nat.sub_diag.
Qed.

(** Without an implicit index a row is the record, completed. *)
Lemma frame_row_header names0 r :
  frame_row names0 (length names0) r = pad (length names0) r.
Proof. unfold frame_row. by rewrite Nat.sub_diag. Qed.

Lemma frame_row_header_fmap names0 (data : list (list string)) :
  frame_row names0 (length names0) <$> data = pad (length names0) <$> data.
Proof. apply list_fmap_ext. intros _ r _. apply frame_row_header. Qed.

Lemma length_frame_row names0 w r :
  length r ≤ w → length names0 ≤ w →
  length (frame_row names0 w r) = length names0.
Proof.
  intros Hr Hw. unfold frame_row, pad.
  rewrite length_drop, length_app, length_fmap, length_replicate. lia.
Qed.

(** The records of a file whose first record fits the header are held
    to the header's number of fields. *)
Lemma expected_fields_fits names0 data :
  Forall (λ r, fits names0 r) data →
  expected_fields names0 data = length names0.
Proof.
  intros Hfit. destruct data as [|r data]; [done|].
  apply Forall_cons in Hfit as [Hr _]. unfold fits in Hr.
  apply bool_decide_unpack in Hr. simpl. lia.
Qed.

Lemma expected_fields_take names0 data k :
  1 ≤ k →
  Forall (λ r, fits names0 r) (take k data) →
  expected_fields names0 data = length names0.
Proof.
  intros Hk Hfit. destruct data as [|r data]; [done|].
  destruct k as [|k]; [lia|]. simpl in Hfit.
  apply Forall_cons in Hfit as [Hr _]. unfold fits in Hr.
  apply bool_decide_unpack in Hr. simpl. lia.
Qed.

Lemma expected_fields_ge names0 data :
  length names0 ≤ expected_fields names0 data.
Proof. destruct data; simpl; lia. Qed.

Lemma length_rows_of cs : length (rows_of cs) = sum_list (chunk_lengths cs).
Proof.
  unfold rows_of, chunk_lengths.
  induction cs as [|c cs IH]; [done|]. csimpl. rewrite length_app. lia.
Qed.

(** On records that all fit the header, the reader runs to
    [StopIteration] and yields the records in order, at most [c] per
    chunk. *)
Lemma drain_fits fuel names0 w c fl data :
  1 ≤ c →
  Forall (λ r, length r ≤ w) data →
  length data + 2 ≤ fuel →
  ∃ cs, drain fuel (mkReader names0 w c fl data) = (cs, StopIteration)
    ∧ rows_of cs = frame_row names0 w <$> data
    ∧ Forall (λ ch, columns ch = names0 ∧ length (rows ch) ≤ c) cs
    ∧ length cs = if fl && bool_decide (data = []) then 1
                  else ceil_div (length data) c.
Proof.
  intros Hc. revert fl data.
  induction fuel as [|fuel IH]; intros fl data Hfit Hfuel; [lia|].
  simpl. unfold reader_next. simpl. rewrite engine_read_cases by done.
  destruct data as [|r data].
  - destruct fl.
    + destruct fuel as [|fuel]; [simpl in Hfuel; lia|].
      simpl. unfold reader_next. simpl. rewrite engine_read_cases by done.
      eexists. split; [done|]. split; [done|]. split; [|done].
      repeat constructor. simpl. lia.
    + exists []. repeat split; [done|]. simpl.
      unfold ceil_div. rewrite Nat.div_small; lia.
  - set (data' := r :: data) in *.
    assert (forallb (λ r, bool_decide (length r ≤ w)) (take c data') = true)
      as ->.
    { apply Is_true_true, forallb_True, Forall_take.
      eapply Forall_impl; [exact Hfit|]. intros ??. by apply bool_decide_pack. }
    destruct (IH false (drop c data')) as (cs & Hd & Hrows & Hall & Hlen).
    { by apply Forall_drop. }
    { rewrite length_drop. simpl in *. lia. }
    rewrite Hd. eexists. split; [done|]. repeat split.
    + unfold rows_of in *. csimpl. rewrite Hrows.
      by rewrite <- fmap_app, take_drop.
    + constructor; [|done]. simpl. split; [done|].
      rewrite length_fmap, length_take. lia.
    + simpl. rewrite Hlen. simpl.
      rewrite length_drop, andb_false_r. symmetry.
      apply (ceil_div_step (length data')); simpl; lia.
Qed.

(** C1, as stated, fails on a file with no data rows: the reader yields
    one (empty) chunk, and ceil(0 / 1) = 0. *)
Lemma chunking_header_only_counterexample :
  ¬ chunking_as_specified header_only comma 1.
Proof.
  intros H.
  destruct (H ["id"; "amount"; "name"]%string [] _ eq_refl eq_refl)
    as (Hlen & _).
  vm_compute in Hlen. discriminate.
Qed.

(** C1, amended. For a file with R data rows, none with more fields than
    the header, and a chunk size C > 0, the reader yields
    max(1, ceil(R / C)) chunks and then stops: the rows in file order, at
    most C per chunk, R in all. With R = 0 that is one empty chunk. *)
Theorem chunks_of_file f sep (c : Z) names0 data :
  (0 < c)%Z →
  parse_header f sep = inr (names0, data) →
  Forall (λ r, fits names0 r) data →
  ∃ r cs,
    read_csv_chunks f sep c = inr r ∧
    chunks_of r = (cs, StopIteration) ∧
    length cs = max 1 (ceil_div (length data) (Z.to_nat c)) ∧
    rows_of cs = pad (length names0) <$> data ∧
    Forall (λ ch, length (rows ch) ≤ Z.to_nat c) cs ∧
    sum_list (chunk_lengths cs) = length data.
Proof.
  intros Hc Hp Hfit. unfold read_csv_chunks, chunks_of, enough_fuel.
  rewrite Hp. destruct (decide (c < 1)%Z); [lia|].
  eexists. simpl. rewrite expected_fields_fits by done.
  destruct (drain_fits (S (S (length data))) names0 (length names0)
              (Z.to_nat c) true data)
    as (cs & Hd & Hrows & Hall & Hlen); [lia| |lia|].
  { eapply Forall_impl; [exact Hfit|]. intros r Hr.
    by apply bool_decide_unpack in Hr. }
  rewrite frame_row_header_fmap in Hrows.
  exists cs. split; [done|]. split; [done|]. split; [|split; [done|split]].
  - rewrite Hlen. simpl. case_bool_decide as Hnil.
    + subst data. simpl. unfold ceil_div. rewrite Nat.div_small; lia.
    + destruct data; [done|]. rewrite ceil_div_pred; simpl; lia.
  - eapply Forall_impl; [exact Hall|]. by intros ? [].
  - by rewrite <- length_rows_of, Hrows, length_fmap.
Qed.

Lemma chunks_of_file_witness :
  ∃ r cs,
    read_csv_chunks ex_file comma 2 = inr r ∧
    chunks_of r = (cs, StopIteration) ∧
    length cs = max 1 (ceil_div 5 (Z.to_nat 2)) ∧
    rows_of cs = pad 3 <$> [ ["1"; "10"; "ann"]; ["2"; "20"; "bob"];
                             ["3"; "30"; "cy"]; ["4"; "40"; "dee"];
                             ["5"; "50"; "eve"] ]%string ∧
    Forall (λ ch, length (rows ch) ≤ Z.to_nat 2) cs ∧
    sum_list (chunk_lengths cs) = 5.
Proof.
  refine (chunks_of_file ex_file comma 2 ["id"; "amount"; "name"]%string _
            _ eq_refl _).
  - lia.
  - repeat constructor.
Defined.

(** ** Reasoning about the run *)

Ltac unfold_prims :=
  unfold process_chunk in *;
  unfold os_path_getsize, open_readline, sqlite3_connect, pd_read_csv_nrows,
    pd_read_csv_chunks, execute_drop_table, conn_commit, tqdm, pbar_update,
    chunk_to_sql, execute_select_count, execute_create_index, conn_close,
    get_database, put_database, put_conn, get_pbar_n,
    put_pbar_n, emit, lift, raise, try_except, mbind, M_bind, mret, M_ret
    in *.

Section Preserves.
Context (I : state → Prop).

Lemma preserves_ret {A} (a : A) : preserves I (mret a).
Proof. by intros s Hs. Qed.

Lemma preserves_raise {A} e : preserves I (@raise A e).
Proof. by intros s Hs. Qed.

Lemma preserves_lift {A} (r : exn + A) : preserves I (lift r).
Proof. by destruct r; intros s Hs. Qed.

Lemma preserves_bind {A B} (m : M A) (k : A → M B) :
  preserves I m → (∀ a, preserves I (k a)) → preserves I (m ≫= k).
Proof.
  intros Hm Hk s Hs. specialize (Hm s Hs). unfold mbind, M_bind.
  destruct (m s) as [[a|e] s']; [by apply Hk|done].
Qed.

Lemma preserves_try {A} (m : M A) (h : exn → M A) :
  preserves I m → (∀ e, preserves I (h e)) → preserves I (try_except m h).
Proof.
  intros Hm Hh s Hs. specialize (Hm s Hs). unfold try_except.
  destruct (m s) as [[a|e] s']; [done|by apply Hh].
Qed.

Lemma reader_next_columns r ch r' :
  reader_next r = (inr ch, r') →
  columns ch = names r ∧ names r' = names r ∧ chunksize r' = chunksize r.
Proof.
  unfold reader_next, engine_read. intros H.
  repeat case_match; by simplify_eq/=.
Qed.

Lemma preserves_for_chunks fuel body i r :
  (∀ j n, preserves I (emit (EvChunk j n))) →
  (∀ j ch, columns ch = names r → preserves I (body j ch)) →
  preserves I (for_chunks fuel body i r).
Proof.
  intros Hemit Hbody. revert i r Hbody.
  induction fuel as [|fuel IH]; intros i r Hbody; [by intros s Hs|].
  simpl. destruct (reader_next r) as [[e|ch] r'] eqn:Hnext.
  - destruct e; by intros s Hs.
  - apply reader_next_columns in Hnext as (Hcols & Hnames & _).
    apply preserves_bind; [apply Hemit|intros _].
    apply preserves_bind; [by apply Hbody|intros _].
    apply IH. intros j ch' Hch'. apply Hbody. congruence.
Qed.

Lemma preserves_index_columns env t fc cols :
  (∀ col, col ∈ cols → indexable env fc col →
          preserves I (execute_create_index env t col)) →
  preserves I (index_columns env t fc cols).
Proof.
  induction cols as [|col cols IH]; intros Hidx; [by intros s Hs|].
  simpl. apply preserves_bind.
  - destruct (indexable env fc col) eqn:Hix; [|apply preserves_ret].
    apply Hidx; [by left|by rewrite Hix].
  - intros _. apply IH. intros c Hc. apply Hidx. by right.
Qed.
End Preserves.

(** The body of the outer [try], by the point at which it can fail
    before the table is dropped. *)
Lemma import_body_cases env import_file t c db :
  import_body env import_file t c (initial db) =
  match import_file with
  | None => (Raise FileNotFoundError, initial db)
  | Some f =>
      if connect_fails env then (Raise OperationalError, initial db)
      else
        let sep := detect_sep (first_line f) in
        match read_csv_nrows f sep 1000 with
        | inl e => (Raise e, mkState db Open 0 [EvConnect])
        | inr first_chunk =>
            if drop_fails env
            then (Raise OperationalError, mkState db Open 0 [EvConnect])
            else
              (load_chunks env import_file t sep c (Z.of_N (st_size f)) ;;
               count_and_index env t first_chunk)
                (at_load db t (Z.of_N (st_size f)))
        end
  end.
Proof.
  unfold import_body. destruct import_file as [f|]; [|done].
  unfold_prims. simpl. destruct (connect_fails env); [done|]. simpl.
  destruct (read_csv_nrows f (detect_sep (first_line f)) 1000); [done|].
  simpl. by destruct (drop_fails env).
Qed.

(** What is left of the body once the bar exists keeps every predicate
    that its statements keep. *)
Lemma preserves_load_and_index (I : state → Prop) env import_file t sep c
    size fc :
  (∀ j n, preserves I (emit (EvChunk j n))) →
  (∀ j ch, preserves I (process_chunk env t c size j ch)) →
  preserves I (execute_select_count env t) →
  (∀ col, preserves I (execute_create_index env t col)) →
  preserves I conn_commit →
  preserves I (emit EvIndexError) →
  preserves I (load_chunks env import_file t sep c size ;;
               count_and_index env t fc).
Proof.
  intros Hchunk Hproc Hcount Hidx Hcommit Herr.
  apply preserves_bind; [|intros _].
  - unfold load_chunks. apply preserves_bind.
    + unfold pd_read_csv_chunks. destruct import_file.
      * apply preserves_lift.
      * apply preserves_raise.
    + intros r. by apply preserves_for_chunks.
  - unfold count_and_index. apply preserves_bind; [done|intros n].
    apply preserves_bind; [|intros _; apply preserves_ret].
    unfold create_indexes. apply preserves_try; [|done].
    apply preserves_bind; [|done].
    apply preserves_index_columns. intros col _ _. apply Hidx.
Qed.

(** ** Release of the connection *)

Lemma conn_open_load_and_index env import_file t sep c size fc :
  preserves (λ s, conn s = Open)
    (load_chunks env import_file t sep c size ;; count_and_index env t fc).
Proof.
  apply preserves_load_and_index; intros; intros s Hs; unfold_prims; simpl;
    repeat case_match; simplify_eq/=; done.
Qed.

Lemma extends_load_and_index l0 env import_file t sep c size fc :
  preserves (extends l0)
    (load_chunks env import_file t sep c size ;; count_and_index env t fc).
Proof.
  apply preserves_load_and_index; intros; intros s [l Hs]; unfold extends;
    unfold_prims; simpl; repeat case_match; simplify_eq/=;
    rewrite ?Hs; first [by exists l | by eexists (_ :: l)
                       | by eexists (_ :: _ :: l) | by eexists (_ :: _ :: _ :: l)].
Qed.

Lemma finally_close_open s :
  conn s = Open →
  finally_close s = mkState (database s) Closed (pbar_n s) (EvClose :: log s).
Proof. unfold finally_close. by intros ->. Qed.

(** C9. However the run ends, the connection is not left open: if it was
    acquired it has been closed, and closing it is the last thing the run
    does; if the run failed before connecting there is nothing to
    release. *)
Theorem connection_released env import_file db t c :
  let s := snd (import_with_progress env import_file db t c) in
  conn s ≠ Open ∧
  (EvConnect ∈ trace s → conn s = Closed ∧ last (trace s) = Some EvClose) ∧
  (EvConnect ∉ trace s → conn s = Unbound).
Proof.
  unfold import_with_progress. rewrite import_body_cases.
  assert (∀ o : outcome, let s := snd (o, finally_close (initial db)) in
    conn s ≠ Open ∧
    (EvConnect ∈ trace s → conn s = Closed ∧ last (trace s) = Some EvClose) ∧
    (EvConnect ∉ trace s → conn s = Unbound)) as Hearly.
  { intros o. simpl. split; [done|]. split; [|done].
    by intros ?%elem_of_nil. }
  destruct import_file as [f|]; [|apply Hearly].
  destruct (connect_fails env); [apply Hearly|].
  assert (∀ o : outcome,
    let s := snd (o, finally_close (mkState db Open 0 [EvConnect])) in
    conn s ≠ Open ∧
    (EvConnect ∈ trace s → conn s = Closed ∧ last (trace s) = Some EvClose) ∧
    (EvConnect ∉ trace s → conn s = Unbound)) as Hsample.
  { intros o. simpl. unfold trace. simpl. repeat split; try done.
    intros H. exfalso. apply H. apply list_elem_of_here. }
  simpl. destruct (read_csv_nrows f _ 1000) as [e|fc]; [apply Hsample|].
  destruct (drop_fails env); [apply Hsample|].
  pose proof (conn_open_load_and_index env (Some f) t
    (detect_sep (first_line f)) c (Z.of_N (st_size f)) fc
    (at_load db t (Z.of_N (st_size f))) eq_refl) as Hopen.
  pose proof (extends_load_and_index
    (log (at_load db t (Z.of_N (st_size f)))) env (Some f) t
    (detect_sep (first_line f)) c (Z.of_N (st_size f)) fc
    (at_load db t (Z.of_N (st_size f))) (ex_intro _ [] eq_refl))
    as [l Hlog].
  destruct ((load_chunks _ _ _ _ _ _ ;; count_and_index _ _ _) _)
    as [r s1].
  simpl in *. rewrite (finally_close_open s1 Hopen).
  unfold trace. simpl. rewrite Hlog, last_snoc.
  repeat split; try done.
  intros H. exfalso. apply H. rewrite rev_app_distr. simpl.
  apply list_elem_of_here.
Qed.

Lemma connection_released_witness :
  conn (snd (import_with_progress quiet (Some ex_file) ∅ "t" 2)) = Closed.
Proof.
  apply (connection_released quiet (Some ex_file) ∅ "t" 2).
  vm_compute. apply list_elem_of_here.
Defined.

(** ** The progress estimate *)

Lemma StronglySorted_snoc {A} (R : A → A → Prop) l x :
  StronglySorted R l → Forall (λ y, R y x) l → StronglySorted R (l ++ [x]).
Proof.
  induction 1 as [|y l Hl IH Hy]; intros Hx; simpl.
  - repeat constructor.
  - apply Forall_cons in Hx as [Hyx Hx]. constructor; [by apply IH|].
    apply Forall_app. split; [done|by constructor].
Qed.

Lemma progress_values_snoc l e :
  progress_values (l ++ [e]) =
  progress_values l ++ match progress_of e with Some v => [v] | None => [] end.
Proof.
  unfold progress_values. rewrite omap_app. simpl. by destruct (progress_of e).
Qed.

Lemma progress_ok_silent size n l e :
  progress_of e = None →
  progress_ok size n l → progress_ok size n (e :: l).
Proof.
  unfold progress_ok. simpl. intros He H.
  by rewrite progress_values_snoc, He, app_nil_r.
Qed.

Lemma progress_ok_update size n l k :
  (0 ≤ k)%Z →
  progress_ok size n l →
  progress_ok size (n + Z.min k (size - n))
    (EvUpdate (n + Z.min k (size - n)) :: l).
Proof.
  unfold progress_ok. simpl. intros Hk (Hn & Hhd & Hsort & Hall).
  rewrite progress_values_snoc. simpl.
  set (vs := progress_values (rev l)) in *.
  assert (Forall (λ v, 0 ≤ v ≤ n + Z.min k (size - n))%Z vs) as Hall'.
  { eapply Forall_impl; [exact Hall|]. simpl. lia. }
  split; [lia|]. split; [by destruct vs|]. split.
  - apply StronglySorted_snoc; [done|].
    eapply Forall_impl; [exact Hall'|]. simpl. lia.
  - apply Forall_app. split; [done|]. constructor; [lia|done].
Qed.

Lemma progress_load_and_index size env import_file t sep c fc :
  (1 ≤ c)%Z →
  preserves (progress_inv size)
    (load_chunks env import_file t sep c size ;; count_and_index env t fc).
Proof.
  intros Hc.
  apply preserves_load_and_index; intros; intros [db0 cn0 n0 l0] Hs;
    unfold progress_inv in *;
    unfold_prims; simpl; repeat case_match; simplify_eq/=;
    try done;
    repeat first
      [ apply progress_ok_silent; [done|]
      | apply progress_ok_update; [lia|]
      | done ].
Qed.

Lemma load_chunks_bad_chunksize env f t sep c size s :
  (c < 1)%Z →
  load_chunks env (Some f) t sep c size s = (Raise ValueError, s).
Proof.
  intros Hc. unfold load_chunks, pd_read_csv_chunks, read_csv_chunks.
  unfold_prims. by destruct (decide (c < 1)%Z).
Qed.

(** C3. The progress estimate starts at 0 when the bar is created, never
    decreases from one update to the next, and never exceeds the size of
    the file. *)
Theorem progress_monotone_bounded env f db t c :
  let s := snd (import_with_progress env (Some f) db t c) in
  let vs := progress_values (trace s) in
  (vs = [] ∨ head vs = Some 0%Z) ∧
  StronglySorted Z.le vs ∧
  Forall (λ v, 0 ≤ v ≤ Z.of_N (st_size f))%Z vs.
Proof.
  unfold import_with_progress. rewrite import_body_cases.
  destruct (connect_fails env); [by repeat constructor|].
  simpl. destruct (read_csv_nrows f _ 1000) as [e|fc];
    [by repeat constructor|].
  destruct (drop_fails env); [by repeat constructor|].
  set (size := Z.of_N (st_size f)). set (sep := detect_sep (first_line f)).
  assert (progress_inv size
            (snd ((load_chunks env (Some f) t sep c size ;;
                   count_and_index env t fc) (at_load db t size)))) as Hinv.
  { assert (progress_inv size (at_load db t size)) as H0.
    { unfold progress_inv, progress_ok. simpl.
      split; [lia|]. split; [done|]. split; repeat constructor; lia. }
    destruct (decide (c < 1)%Z) as [Hc|Hc].
    - unfold mbind, M_bind. by rewrite load_chunks_bad_chunksize.
    - apply progress_load_and_index; [lia|done]. }
  pose proof (conn_open_load_and_index env (Some f) t sep c size fc
                (at_load db t size) eq_refl) as Hopen.
  destruct ((load_chunks _ _ _ _ _ _ ;; count_and_index _ _ _) _)
    as [r [db1 cn n l]].
  simpl in *. subst cn. unfold finally_close, conn_close. unfold_prims. simpl.
  apply (progress_ok_silent size n l EvClose eq_refl) in Hinv.
  destruct Hinv as (Hn & Hhd & Hsort & Hall). unfold trace. simpl.
  split; [by right|]. split; [done|].
  eapply Forall_impl; [exact Hall|]. simpl. lia.
Qed.

(** ** Tables other than the destination *)

(** Other tables keep their content. *)
Lemma frame_load_and_index k v env import_file t sep c size fc :
  k ≠ t →
  preserves (λ s, database s !! k = v)
    (load_chunks env import_file t sep c size ;; count_and_index env t fc).
Proof.
  intros Hk.
  apply preserves_load_and_index; intros; intros s Hs;
    unfold_prims; unfold to_sql, create_index in *; simpl;
    repeat (case_match; simplify_eq/=); rewrite ?lookup_insert_ne; done.
Qed.

Lemma database_finally_close s : database (finally_close s) = database s.
Proof. unfold finally_close. by destruct (conn s). Qed.

(** ** The drop of the destination table *)

Lemma written_load_and_index env import_file t sep c size fc :
  preserves (λ s, database s !! t = None ∨ ∃ i mode, EvToSql i mode ∈ log s)
    (load_chunks env import_file t sep c size ;; count_and_index env t fc).
Proof.
  assert (∀ (l : list event) e,
    (∃ i mode, EvToSql i mode ∈ l) → ∃ i mode, EvToSql i mode ∈ e :: l)
    as Hmore.
  { intros l e (i & mode & H). exists i, mode. by right. }
  apply preserves_load_and_index; intros; intros [db0 cn0 n0 l0] Hs;
    unfold_prims; unfold create_index in *; simpl in *;
    repeat (case_match; simplify_eq/=);
    try done;
    try (destruct Hs as [Hs|Hs]; [by left|right; by repeat apply Hmore]);
    try (destruct Hs as [Hs|Hs]; [congruence|right; by repeat apply Hmore]);
    right; repeat (first [ by eexists _, _; apply list_elem_of_here
                         | apply Hmore ]).
Qed.

Lemma prefix_without P (l0 rest pre post : list event) e :
  Forall (λ x, ¬ P x) l0 → P e →
  l0 ++ rest = pre ++ e :: post →
  ∃ pre', pre = l0 ++ pre'.
Proof.
  intros Hl0 He. revert pre.
  induction Hl0 as [|x l0 Hx _ IH]; intros pre Heq; [by exists pre|].
  destruct pre as [|y pre]; simpl in Heq; simplify_eq; [done|].
  destruct (IH pre) as [pre' ->]; [done|]. by exists pre'.
Qed.

Lemma drop_precedes_chunks_intro rest :
  drop_precedes_chunks
    ([EvConnect; EvDropTable; EvCommit] ++ rest).
Proof.
  intros pre e post Heq He.
  destruct (prefix_without chunk_event [EvConnect; EvDropTable; EvCommit]
              rest pre post e) as [pre' ->]; [|done|done|].
  - repeat constructor; by intros [].
  - by exists [EvConnect], pre'.
Qed.

Lemma drop_precedes_chunks_none tr :
  Forall (λ x, ¬ chunk_event x) tr → drop_precedes_chunks tr.
Proof.
  intros Hall pre e post -> He.
  apply Forall_app in Hall as [_ Hall]. by apply Forall_cons in Hall as [? _].
Qed.

(** C10, as stated, fails on a file that exists but does not survive
    schema sampling: the run ends before the drop and the old table
    stays. *)
Lemma drop_ragged_counterexample :
  ¬ drop_as_specified quiet ragged_file {[ "t"%string := old_table ]} "t" 2.
Proof.
  intros (_ & _ & H).
  assert (nothing_written
    (trace (snd (import_with_progress quiet (Some ragged_file)
                   {[ "t"%string := old_table ]} "t" 2)))) as Hnw.
  { intros i mode Hin. vm_compute in Hin.
    repeat (apply elem_of_cons in Hin as [Hin|Hin]; [discriminate|]).
    by apply elem_of_nil in Hin. }
  specialize (H Hnw). vm_compute in H. discriminate.
Qed.

(** C10, amended. In every run, each chunk is read and written after the
    [DROP TABLE] and its commit. In every run that gets past schema
    sampling (the input file exists, the connection opens and the sample
    of the first 1000 records parses) and in which the [DROP TABLE]
    statement itself does not fail, the drop is executed: what the table
    held before the run has no effect on the run, and when the run ends
    without having called [to_sql] there is no such table left. *)
Theorem drop_before_chunks env import_file db t c :
  let s := snd (import_with_progress env import_file db t c) in
  drop_precedes_chunks (trace s) ∧
  ∀ f first_chunk,
    import_file = Some f →
    connect_fails env = false →
    read_csv_nrows f (detect_sep (first_line f)) 1000 = inr first_chunk →
    drop_fails env = false →
    EvDropTable ∈ trace s ∧
    (∀ db', drop_table t db' = drop_table t db →
            import_with_progress env import_file db' t c =
            import_with_progress env import_file db t c) ∧
    (nothing_written (trace s) → database s !! t = None).
Proof.
  simpl. unfold import_with_progress.
  destruct import_file as [f|].
  2:{ rewrite import_body_cases. split; [|by intros].
      by apply drop_precedes_chunks_none. }
  split.
  - rewrite import_body_cases. destruct (connect_fails env).
    { by apply drop_precedes_chunks_none. }
    assert (drop_precedes_chunks
              (trace (finally_close (mkState db Open 0 [EvConnect]))))
      as Hsample.
    { apply drop_precedes_chunks_none. unfold trace. simpl.
      repeat constructor; by intros []. }
    simpl. destruct (read_csv_nrows f _ 1000) as [e|fc]; [done|].
    destruct (drop_fails env); [done|].
    set (size := Z.of_N (st_size f)). set (sep := detect_sep (first_line f)).
    destruct (extends_load_and_index (log (at_load db t size)) env (Some f) t
                sep c size fc (at_load db t size) (ex_intro _ [] eq_refl))
      as [l Hlog].
    pose proof (conn_open_load_and_index env (Some f) t sep c size fc
                  (at_load db t size) eq_refl) as Hopen.
    destruct ((load_chunks _ _ _ _ _ _ ;; count_and_index _ _ _) _)
      as [r s1].
    simpl in *. rewrite (finally_close_open s1 Hopen). unfold trace. simpl.
    rewrite Hlog, rev_app_distr. simpl.
    apply (drop_precedes_chunks_intro (_ :: _)).
  - intros f' fc [= <-] Hconn Hsample Hdrop.
    assert (∀ db0,
      import_body env (Some f) t c (initial db0) =
      (load_chunks env (Some f) t (detect_sep (first_line f)) c
         (Z.of_N (st_size f)) ;; count_and_index env t fc)
        (at_load db0 t (Z.of_N (st_size f)))) as Hbody.
    { intros db0. rewrite import_body_cases, Hconn. simpl.
      by rewrite Hsample, Hdrop. }
    set (size := Z.of_N (st_size f)) in *.
    set (sep := detect_sep (first_line f)) in *.
    set (m := load_chunks env (Some f) t sep c size ;; count_and_index env t fc)
      in *.
    rewrite Hbody.
    destruct (extends_load_and_index (log (at_load db t size)) env (Some f) t
                sep c size fc (at_load db t size) (ex_intro _ [] eq_refl))
      as [l Hlog].
    pose proof (conn_open_load_and_index env (Some f) t sep c size fc
                  (at_load db t size) eq_refl) as Hopen.
    pose proof (written_load_and_index env (Some f) t sep c size fc
                  (at_load db t size)) as Hwr.
    fold m in Hlog, Hopen, Hwr.
    destruct (m (at_load db t size)) as [r s1] eqn:E1. simpl in *.
    rewrite (finally_close_open s1 Hopen). unfold trace. simpl.
    split; [|split].
    + rewrite Hlog, rev_app_distr. simpl.
      right. apply list_elem_of_here.
    + intros db' Hdb'. rewrite Hbody.
      assert (at_load db' t size = at_load db t size) as ->.
      { unfold at_load. by rewrite Hdb'. }
      rewrite E1. simpl. by rewrite (finally_close_open s1 Hopen).
    + intros Hnw. destruct Hwr as [Hnone|(i & mode & Hin)]; [|done|].
      { left. unfold at_load, drop_table. simpl. apply lookup_delete_eq. }
      exfalso. apply (Hnw i mode).
      apply elem_of_app. left. apply list_elem_of_In, in_rev.
      rewrite rev_involutive. by apply list_elem_of_In.
Qed.

(** ** The chunk loop, chunk by chunk *)

Lemma for_chunks_drain fuel body i r s :
  for_chunks fuel body i r s =
  write_all body i (fst (drain fuel r)) (snd (drain fuel r)) s.
Proof.
  revert i r s. induction fuel as [|fuel IH]; intros i r s; [done|].
  simpl. destruct (reader_next r) as [[e|ch] r'].
  - by destruct e.
  - specialize (IH (S i) r').
    destruct (drain fuel r') as [cs e]. simpl in *.
    unfold mbind, M_bind. destruct (emit _ s) as [[[]|e1] s1]; [|done].
    destruct (body i ch s1) as [[[]|e2] s2]; [|done]. apply IH.
Qed.

Lemma write_all_cons body i ch cs e s s1 :
  body i ch (mkState (database s) (conn s) (pbar_n s)
               (EvChunk i (length (rows ch)) :: log s)) = (Ok tt, s1) →
  write_all body i (ch :: cs) e s = write_all body (S i) cs e s1.
Proof. intros H. simpl. unfold mbind, M_bind, emit. by rewrite H. Qed.

Lemma process_chunk_ok env t c size i ch s db' :
  to_sql_fails env i = false →
  to_sql ch t (if decide (i = 0) then Replace else Append) (database s)
    = inr db' →
  ∃ s', process_chunk env t c size i ch s = (Ok tt, s')
    ∧ database s' = db'.
Proof.
  intros Hw Hsql. unfold_prims. rewrite Hw. simpl. rewrite Hsql. simpl.
  by eexists.
Qed.

(** Appending chunks to a table that exists. *)
Lemma write_all_append env t c size i cs e s tb :
  (∀ j, to_sql_fails env j = false) →
  i ≠ 0 →
  database s !! t = Some tb →
  Forall (λ ch, columns ch = tbl_columns tb) cs →
  ∃ s', write_all (process_chunk env t c size) i cs e s = (loop_result e, s')
    ∧ database s' !! t =
        Some (mkTable (tbl_columns tb) (tbl_rows tb ++ rows_of cs)
                      (tbl_indexes tb)).
Proof.
  intros Hw. revert i s tb.
  induction cs as [|ch cs IH]; intros i s tb Hi Hdb Hcols.
  - exists s. split; [by destruct e|].
    unfold rows_of. simpl. rewrite app_nil_r. by destruct tb.
  - apply Forall_cons in Hcols as [Hch Hcols].
    destruct (process_chunk_ok env t c size i ch
      (mkState (database s) (conn s) (pbar_n s)
         (EvChunk i (length (rows ch)) :: log s))
      (<[t := mkTable (tbl_columns tb) (tbl_rows tb ++ rows ch)
                      (tbl_indexes tb)]> (database s)))
      as (s1 & Hrun1 & Hdb1); [apply Hw| |].
    { unfold to_sql. simpl. rewrite Hdb.
      destruct (decide (i = 0)) as [|_]; [done|].
      by destruct (decide (columns ch = tbl_columns tb)). }
    rewrite (write_all_cons _ _ _ _ _ _ _ Hrun1).
    destruct (IH (S i) s1
      (mkTable (tbl_columns tb) (tbl_rows tb ++ rows ch) (tbl_indexes tb)))
      as (s' & Hrun & Hdb'); [done| |done|].
    { by rewrite Hdb1, lookup_insert_eq. }
    exists s'. split; [exact Hrun|]. rewrite Hdb'. simpl.
    unfold rows_of. csimpl. by rewrite app_assoc.
Qed.

(** The whole loop, from a database in which the table was dropped. *)
Lemma write_all_fresh env t c size names0 cs e s :
  (∀ j, to_sql_fails env j = false) →
  database s !! t = None →
  Forall (λ ch, columns ch = names0) cs →
  ∃ s', write_all (process_chunk env t c size) 0 cs e s = (loop_result e, s')
    ∧ database s' !! t = table_of names0 cs.
Proof.
  intros Hw Hdb Hcols. destruct cs as [|ch cs].
  - exists s. split; [by destruct e|done].
  - apply Forall_cons in Hcols as [Hch Hcols].
    edestruct (process_chunk_ok env t c size 0 ch
      (mkState (database s) (conn s) (pbar_n s)
         (EvChunk 0 (length (rows ch)) :: log s))) as (s1 & Hrun1 & Hdb1);
      [apply Hw|done|].
    rewrite (write_all_cons _ _ _ _ _ _ _ Hrun1).
    destruct (write_all_append env t c size 1 cs e s1
                (mkTable names0 (rows ch) [])) as (s' & Hrun & Hdb');
      [done|done| |done|].
    { by rewrite Hdb1, Hch, lookup_insert_eq. }
    exists s'. split; [done|]. by rewrite Hdb'.
Qed.

(** ** The indexing step *)












(** The inner [try] never lets an exception out. *)
Lemma create_indexes_ok env t fc s : fst (create_indexes env t fc s) = Ok tt.
Proof.
  unfold create_indexes, try_except.
  destruct ((index_columns _ _ _ _ ;; conn_commit) s) as [[[]|e] s'];
    done.
Qed.

(** The row count that is reported is the one that is read: the indexing
    step has no say in how the run ends. *)
Lemma count_and_index_result env t fc s :
  fst (count_and_index env t fc s) = fst (execute_select_count env t s).
Proof.
  unfold count_and_index, mbind, M_bind.
  destruct (execute_select_count env t s) as [[n|e] s1]; [|done].
  pose proof (create_indexes_ok env t fc s1) as H.
  destruct (create_indexes env t fc s1) as [[[]|e] s2]; done.
Qed.

(** ** Runs on well-formed and on ragged files *)

Lemma drain_columns fuel r :
  Forall (λ ch, columns ch = names r) (fst (drain fuel r)).
Proof.
  revert r. induction fuel as [|fuel IH]; intros r; [by constructor|].
  simpl. destruct (reader_next r) as [[e|ch] r'] eqn:Hnext; [by constructor|].
  apply reader_next_columns in Hnext as (Hcols & Hnames & _).
  specialize (IH r'). destruct (drain fuel r') as [cs e]. simpl in *.
  constructor; [done|]. by rewrite <- Hnames.
Qed.

(** The reader on a file whose record [k] is the first with more fields
    than the header: it yields the [k / c] chunks that come before the
    chunk of that record, then fails. *)
Lemma drain_ragged fuel names0 c fl data k r :
  1 ≤ c →
  Forall (λ r, fits names0 r) (take k data) →
  data !! k = Some r →
  ¬ fits names0 r →
  length data + 2 ≤ fuel →
  ∃ cs, drain fuel (mkReader names0 (length names0) c fl data)
          = (cs, ParserError)
    ∧ rows_of cs = pad (length names0) <$> take (k / c * c) data
    ∧ length cs = k / c.
Proof.
  intros Hc. revert fl data k.
  induction fuel as [|fuel IH]; intros fl data k Hfit Hk Hr Hfuel; [lia|].
  simpl. unfold reader_next. simpl. rewrite engine_read_header by done.
  destruct data as [|r0 data]; [done|]. set (data' := r0 :: data) in *.
  destruct (decide (k < c)) as [Hlt|Hge].
  - assert (forallb (fits names0) (take c data') = false) as ->.
    { apply not_true_is_false. intros H.
      apply Is_true_true, forallb_True in H.
      rewrite Forall_lookup in H. apply Hr, (H k).
      by rewrite lookup_take_lt. }
    exists []. rewrite Nat.div_small by done. by repeat split.
  - assert (forallb (fits names0) (take c data') = true) as ->.
    { apply Is_true_true, forallb_True.
      replace c with (min c k) by lia. rewrite <- take_take.
      by apply Forall_take. }
    assert (k / c = S ((k - c) / c)) as Hdiv.
    { replace k with ((k - c) + 1 * c) at 1 by lia.
      rewrite Nat.div_add by lia. lia. }
    destruct (IH false (drop c data') (k - c)) as (cs & Hd & Hrows & Hlen).
    { rewrite take_drop_commute. apply Forall_drop.
      by replace (c + (k - c)) with k by lia. }
    { rewrite lookup_drop. by replace (c + (k - c)) with k by lia. }
    { done. }
    { rewrite length_drop. simpl in *. lia. }
    rewrite Hd. eexists. split; [done|]. split.
    + unfold rows_of in *. csimpl. rewrite Hrows, <- fmap_app. f_equal.
      rewrite take_take_drop. f_equal. rewrite Hdiv. lia.
    + simpl. lia.
Qed.

(** Schema sampling reads the first [nrows] records. *)
Lemma read_csv_nrows_fits f sep nrows names0 data :
  1 ≤ nrows →
  parse_header f sep = inr (names0, data) →
  Forall (λ r, fits names0 r) (take nrows data) →
  read_csv_nrows f sep nrows
    = inr (mkDataFrame names0 (pad (length names0) <$> take nrows data)).
Proof.
  intros Hn Hp Hfit. unfold read_csv_nrows. rewrite Hp.
  rewrite (expected_fields_take names0 data nrows) by done.
  rewrite engine_read_header by done. destruct data as [|r data].
  - by rewrite take_nil.
  - apply forallb_True, Is_true_true in Hfit. by rewrite Hfit.
Qed.

Lemma read_csv_nrows_ragged f sep nrows names0 data k r :
  parse_header f sep = inr (names0, data) →
  1 ≤ k →
  Forall (λ r, fits names0 r) (take k data) →
  data !! k = Some r → ¬ fits names0 r → k < nrows →
  read_csv_nrows f sep nrows = inl ParserError.
Proof.
  intros Hp Hk1 Hfit Hk Hr Hlt. unfold read_csv_nrows. rewrite Hp.
  rewrite (expected_fields_take names0 data k) by done.
  rewrite engine_read_header by lia. destruct data as [|r0 data]; [done|].
  set (data' := r0 :: data) in *.
  assert (forallb (fits names0) (take nrows data') = false) as ->; [|done].
  apply not_true_is_false. intros H.
  apply Is_true_true, forallb_True in H.
  rewrite Forall_lookup in H. apply Hr, (H k). by rewrite lookup_take_lt.
Qed.


(** The loop of a run in which no write is refused. *)
Lemma load_chunks_run env f t sep (c : Z) size names0 data s :
  parse_header f sep = inr (names0, data) →
  (1 ≤ c)%Z →
  (∀ j, to_sql_fails env j = false) →
  database s !! t = None →
  ∃ s', load_chunks env (Some f) t sep c size s =
          (loop_result
             (snd (chunks_of (mkReader names0 (expected_fields names0 data)
                                (Z.to_nat c) true data))), s')
    ∧ database s' !! t =
        table_of names0
          (fst (chunks_of (mkReader names0 (expected_fields names0 data)
                             (Z.to_nat c) true data))).
Proof.
  intros Hp Hc Hw Hdb.
  unfold load_chunks, pd_read_csv_chunks, read_csv_chunks.
  rewrite Hp. destruct (decide (c < 1)%Z); [lia|].
  unfold lift, mbind, M_bind, mret, M_ret.
  rewrite for_chunks_drain. unfold chunks_of.
  apply write_all_fresh; [done|done|].
  apply (drain_columns _ (mkReader names0 (expected_fields names0 data)
                            (Z.to_nat c) true data)).
Qed.

(** A run that gets past schema sampling. *)
Lemma import_after_sampling env f db t c fc :
  connect_fails env = false →
  drop_fails env = false →
  read_csv_nrows f (detect_sep (first_line f)) 1000 = inr fc →
  import_with_progress env (Some f) db t c =
  let '(r, s) :=
    (load_chunks env (Some f) t (detect_sep (first_line f)) c
       (Z.of_N (st_size f)) ;;
     count_and_index env t fc) (at_load db t (Z.of_N (st_size f))) in
  (match r with Ok n => DONE n | Raise e => FAILED e end, finally_close s).
Proof.
  intros Hconn Hdrop Hsample. unfold import_with_progress.
  rewrite import_body_cases, Hconn. simpl. by rewrite Hsample, Hdrop.
Qed.



Lemma fresh_table_load_chunks env f t sep c size names0 data :
  parse_header f sep = inr (names0, data) →
  preserves (fresh_table t names0) (load_chunks env (Some f) t sep c size).
Proof.
  intros Hp s Hs. unfold load_chunks, pd_read_csv_chunks, read_csv_chunks.
  rewrite Hp. destruct (decide (c < 1)%Z); [done|].
  unfold lift, mbind, M_bind, mret, M_ret.
  apply preserves_for_chunks; [| |done].
  - intros j k s0 H0. by unfold emit, fresh_table in *.
  - simpl. intros j ch Hch [db0 cn0 n0 l0] H0.
    unfold fresh_table in *. unfold_prims. unfold to_sql. simpl in *.
    repeat (case_match; simplify_eq/=); try done;
      right; eexists; rewrite lookup_insert_eq; split; try done;
      destruct H0 as [H0|(tb & H0 & ? & ?)]; naive_solver.
Qed.

Lemma table_holds_create_indexes env t fc names0 rs :
  preserves (table_holds t names0 rs) (create_indexes env t fc).
Proof.
  unfold create_indexes. apply preserves_try.
  - apply preserves_bind.
    + apply preserves_index_columns. intros col _ _ [db0 cn0 n0 l0] H0.
      unfold table_holds in *. unfold_prims. unfold create_index. simpl in *.
      destruct H0 as (tb & H0 & ? & ?).
      repeat (case_match; simplify_eq/=); try by exists tb.
      eexists. rewrite lookup_insert_eq. by split.
    + intros _ s H0. by unfold conn_commit, emit, table_holds in *.
  - intros _ s H0. by unfold emit, table_holds in *.
Qed.

(** The count, then the indexes, on a table that exists. *)
Lemma count_and_index_run env t fc s tb :
  count_fails env = false →
  database s !! t = Some tb →
  ∃ s', count_and_index env t fc s = (Ok (length (tbl_rows tb)), s')
    ∧ s' = snd (create_indexes env t fc s)
    ∧ table_holds t (tbl_columns tb) (tbl_rows tb) s'.
Proof.
  intros Hcount Hdb.
  unfold count_and_index, execute_select_count, select_count. rewrite Hcount.
  unfold get_database, lift, mbind, M_bind, mret, M_ret. rewrite Hdb.
  pose proof (create_indexes_ok env t fc s) as Hok.
  pose proof (table_holds_create_indexes env t fc (tbl_columns tb)
                (tbl_rows tb) s) as Hkeep.
  destruct (create_indexes env t fc s) as [[[]|e] s']; [|done].
  exists s'. split; [done|]. split; [done|]. apply Hkeep. by exists tb.
Qed.








(** ** Failures of the indexing step *)




Lemma index_columns_skip env t fc cols s :
  (∀ col, col ∈ cols → indexable env fc col = false) →
  index_columns env t fc cols s = (Ok tt, s).
Proof.
  induction cols as [|col cols IH]; intros Hno; [done|].
  simpl. rewrite (Hno col) by apply list_elem_of_here.
  unfold mbind, M_bind, mret, M_ret. simpl. apply IH.
  intros x Hx. apply Hno. by right.
Qed.

(** ** A file with a header and no data *)

(** C6, as stated, fails: the reader does yield a chunk, an empty one, and
    it is that chunk which creates the table. *)
Lemma empty_input_counterexample :
  ¬ empty_input_as_specified quiet header_only ∅ "t" 2.
Proof.
  intros H. destruct (H _ eq_refl) as (Hnone & _).
  apply (Hnone 0 0). vm_compute.
  do 4 right. apply list_elem_of_here.
Qed.

(** C6, amended. On a file with a header, of distinct and non-empty
    names, and no data rows, with a chunk size of at least 1, when the
    connection opens and neither the [DROP TABLE], nor the write of the
    first chunk, nor the [SELECT COUNT] fails: the reader yields one
    chunk, which is empty; writing it creates the table with the header's
    columns and no rows; no index is attempted (a column without a value
    is sampled as [object]), so none fails; and the run reaches DONE with
    a row count of 0. *)
Theorem header_only_run env f db t c names0 :
  parse_header f (detect_sep (first_line f)) = inr (names0, []) →
  plain_header names0 →
  (1 ≤ c)%Z →
  connect_fails env = false →
  drop_fails env = false →
  to_sql_fails env 0 = false →
  count_fails env = false →
  let run := import_with_progress env (Some f) db t c in
  let size := Z.of_N (st_size f) in
  fst run = DONE 0 ∧
  database (snd run) !! t = Some (mkTable names0 [] []) ∧
  trace (snd run) =
    [EvConnect; EvDropTable; EvCommit; EvTqdm size;
     EvChunk 0 0; EvToSql 0 Replace;
     EvUpdate (Z.min (c * Z.of_nat (length names0) * 8) size); EvCommit;
     EvCommit; EvClose].
Proof.
  intros Hp _ Hc Hconn Hdrop Hw Hcount. simpl.
  assert (read_csv_nrows f (detect_sep (first_line f)) 1000
          = inr (mkDataFrame names0 [])) as Hsample.
  { unfold read_csv_nrows. by rewrite Hp. }
  rewrite (import_after_sampling _ _ _ _ _ _ Hconn Hdrop Hsample).
  unfold load_chunks, pd_read_csv_chunks, read_csv_chunks.
  rewrite Hp. destruct (decide (c < 1)%Z); [lia|].
  unfold lift, mbind, M_bind, mret, M_ret, enough_fuel. simpl.
  unfold reader_next. simpl. rewrite engine_read_cases by lia.
  unfold emit at 1. simpl.
  unfold process_chunk, chunk_to_sql. rewrite Hw.
  unfold_prims. simpl. rewrite engine_read_cases by lia. simpl.
  unfold count_and_index. unfold_prims. rewrite Hcount.
  unfold select_count, drop_table. simpl. rewrite lookup_insert_eq. simpl.
  unfold create_indexes, try_except, mbind, M_bind.
  rewrite index_columns_skip.
  2:{ intros col _. unfold indexable, column_dtype, column_values. simpl.
      apply bool_decide_eq_false.
      destruct (list_find _ _) as [[]|]; simpl; set_solver. }
  simpl. unfold finally_close, conn_close. unfold_prims. simpl.
  rewrite lookup_insert_eq. split; [done|]. split; [done|].
  unfold trace. simpl. by rewrite Z.sub_0_r.
Qed.

Lemma header_only_run_witness :
  let run := import_with_progress quiet (Some header_only) ∅ "t" 2 in
  fst run = DONE 0 ∧
  database (snd run) !! "t"%string
    = Some (mkTable ["id"; "amount"; "name"]%string [] []) ∧
  trace (snd run) =
    [EvConnect; EvDropTable; EvCommit; EvTqdm 15;
     EvChunk 0 0; EvToSql 0 Replace; EvUpdate 15; EvCommit;
     EvCommit; EvClose].
Proof.
  apply (header_only_run quiet header_only ∅ "t" 2
           ["id"; "amount"; "name"]%string); try reflexivity.
  - split.
    + repeat constructor; set_solver.
    + set_solver.
  - lia.
Defined.

(** ** Short and long data rows *)

(** C7, as stated, fails: a row with one field fewer than the header is
    read with a missing value in its last column, and the run reaches
    DONE. *)
Lemma short_row_counterexample :
  ¬ short_row_as_specified quiet short_row_file ∅ "t" 2.
Proof.
  intros H.
  destruct (H ["id"; "amount"; "name"]%string
              [ ["1"; "10"; "ann"]; ["2"; "20"] ]%string
              1 ["2"; "20"]%string eq_refl eq_refl eq_refl) as [e He].
  vm_compute in He. discriminate.
Qed.

(** C7, amended. Take a file whose header names are distinct and not
    empty, a chunk size of at least 1, and a run in which the connection
    opens and neither the [DROP TABLE], nor a write, nor the
    [SELECT COUNT] fails. If no data row has more fields than the header,
    the run reaches DONE with every row in the table: a row that is short
    of fields is not an error, its missing fields are stored as missing
    values. A row after the first with more fields than the header, when
    the rows before it have no more fields than the header, is fatal, the
    run ends FAILED: when that row is among the first 1000, during schema
    sampling, with the database untouched; otherwise when the chunk that
    holds the row is read, and the chunks written before it stay in the
    table, with no rollback. *)
Theorem short_rows_padded_long_rows_fatal env f db t c names0 data :
  parse_header f (detect_sep (first_line f)) = inr (names0, data) →
  plain_header names0 →
  (1 ≤ c)%Z →
  connect_fails env = false →
  drop_fails env = false →
  (∀ j, to_sql_fails env j = false) →
  count_fails env = false →
  let run := import_with_progress env (Some f) db t c in
  (Forall (λ r, fits names0 r) data →
     fst run = DONE (length data) ∧
     table_holds t names0 (pad (length names0) <$> data) (snd run)) ∧
  (∀ k r,
     0 < k →
     Forall (λ r, fits names0 r) (take k data) →
     data !! k = Some r →
     ¬ fits names0 r →
     fst run = FAILED ParserError ∧
     (k < 1000 → database (snd run) = db) ∧
     (1000 ≤ k →
        let q := k / Z.to_nat c in
        database (snd run) !! t =
          if decide (q = 0) then None
          else Some (mkTable names0
                       (pad (length names0) <$> take (q * Z.to_nat c) data)
                       []))).
Proof.
  intros Hp _ Hc Hconn Hdrop Hw Hcount. simpl.
  set (sep := detect_sep (first_line f)) in *.
  set (size := Z.of_N (st_size f)).
  set (r0 := mkReader names0 (length names0) (Z.to_nat c) true data).
  assert (database (at_load db t size) !! t = None) as Hnone.
  { unfold at_load, drop_table. simpl. apply lookup_delete_eq. }
  destruct (load_chunks_run env f t sep c size names0 data
              (at_load db t size) Hp Hc Hw Hnone) as (s1 & Hload & Hdb1).
  split.
  - intros Hfit.
    rewrite (expected_fields_fits names0 data Hfit) in Hload, Hdb1.
    fold r0 in Hload, Hdb1.
    rewrite (import_after_sampling env f db t c
               (mkDataFrame names0 (pad (length names0) <$> take 1000 data))
               Hconn Hdrop).
    2:{ apply read_csv_nrows_fits; [lia|done|by apply Forall_take]. }
    destruct (drain_fits (enough_fuel r0) names0 (length names0) (Z.to_nat c)
                true data)
      as (cs & Hd & Hrows & _ & Hlen);
      [lia| |unfold enough_fuel, r0; simpl; lia|].
    { eapply Forall_impl; [exact Hfit|]. intros x Hx.
      by apply bool_decide_unpack in Hx. }
    rewrite frame_row_header_fmap in Hrows.
    fold r0 in Hd. unfold chunks_of in Hload, Hdb1.
    rewrite Hd in Hload, Hdb1. simpl in Hload, Hdb1.
    assert (table_of names0 cs
            = Some (mkTable names0 (pad (length names0) <$> data) [])) as Htb.
    { destruct cs as [|ch cs]; [|by rewrite <- Hrows].
      simpl in Hlen. case_bool_decide; [done|].
      destruct data; [done|]. rewrite ceil_div_pred in Hlen; simpl; lia. }
    rewrite Htb in Hdb1. fold sep size.
    unfold mbind, M_bind. rewrite Hload.
    destruct (count_and_index_run env t
                (mkDataFrame names0 (pad (length names0) <$> take 1000 data))
                s1 _ Hcount Hdb1) as (s2 & Hrun & _ & Hholds).
    rewrite Hrun. simpl in *. rewrite length_fmap. split; [done|].
    unfold table_holds in *. by rewrite database_finally_close.
  - intros k r Hk0 Hfit Hk Hr.
    rewrite (expected_fields_take names0 data k) in Hload, Hdb1 by (lia || done).
    fold r0 in Hload, Hdb1.
    destruct (decide (k < 1000)) as [Hlt|Hge].
    + unfold import_with_progress. rewrite import_body_cases, Hconn. simpl.
      rewrite (read_csv_nrows_ragged f _ 1000 names0 data k r)
        by (lia || done).
      simpl. split; [done|]. split; [done|lia].
    + rewrite (import_after_sampling env f db t c
                 (mkDataFrame names0 (pad (length names0) <$> take 1000 data))
                 Hconn Hdrop).
      2:{ apply read_csv_nrows_fits; [lia|done|].
          replace 1000 with (min 1000 k) by lia. rewrite <- take_take.
          by apply Forall_take. }
      destruct (drain_ragged (enough_fuel r0) names0 (Z.to_nat c) true data
                  k r) as (cs & Hd & Hrows & Hlen);
        [lia|done..|unfold enough_fuel, r0; simpl; lia|].
      fold r0 in Hd. unfold chunks_of in Hload, Hdb1.
      rewrite Hd in Hload, Hdb1. simpl in Hload, Hdb1.
      fold sep size. unfold mbind, M_bind. rewrite Hload. simpl.
      rewrite database_finally_close. split; [done|]. split; [lia|].
      intros _. rewrite Hdb1, <- Hlen. unfold table_of.
      destruct cs as [|ch cs]; [done|].
      destruct (decide (length (ch :: cs) = 0)) as [Hz|_]; [done|].
      by rewrite Hrows, <- Hlen.
Qed.

Lemma short_rows_padded_long_rows_fatal_witness :
  (fst (import_with_progress quiet (Some short_row_file) ∅ "t" 2) = DONE 2 ∧
   table_holds "t" ["id"; "amount"; "name"]%string
     [ [Some "1"; Some "10"; Some "ann"]; [Some "2"; Some "20"; None] ]%string
     (snd (import_with_progress quiet (Some short_row_file) ∅ "t" 2))) ∧
  (fst (import_with_progress quiet (Some late_ragged_file)
          {[ "t"%string := old_table ]} "t" 500) = FAILED ParserError ∧
   row_count_of
     (database (snd (import_with_progress quiet (Some late_ragged_file)
                       {[ "t"%string := old_table ]} "t" 500))) "t"
     = Some 1000).
Proof.
  assert (plain_header ["id"; "amount"; "name"]%string) as Hplain1.
  { split; [repeat constructor; set_solver|set_solver]. }
  assert (plain_header ["a"; "b"]%string) as Hplain2.
  { split; [repeat constructor; set_solver|set_solver]. }
  split.
  - apply (short_rows_padded_long_rows_fatal quiet short_row_file ∅ "t" 2
             ["id"; "amount"; "name"]%string
             [ ["1"; "10"; "ann"]; ["2"; "20"] ]%string
             eq_refl Hplain1 ltac:(lia) eq_refl eq_refl (λ _, eq_refl)
             eq_refl).
    repeat constructor.
  - destruct (short_rows_padded_long_rows_fatal quiet late_ragged_file
                {[ "t"%string := old_table ]} "t" 500 ["a"; "b"]%string
                (replicate 1200 ["1"; "2"]%string ++ [ ["3"; "4"; "5"]%string ])
                eq_refl Hplain2 ltac:(lia) eq_refl eq_refl (λ _, eq_refl)
                eq_refl) as [_ H].
    destruct (H 1200 ["3"; "4"; "5"]%string) as (Hfail & _ & Hdb).
    + lia.
    + apply forallb_True. by vm_compute.
    + by vm_compute.
    + by vm_compute.
    + split; [exact Hfail|]. unfold row_count_of.
      rewrite (Hdb ltac:(lia)). by vm_compute.
Defined.

(** ** The iteration bound is never reached *)

Lemma for_chunks_fuel fuel body i r s :
  1 ≤ chunksize r →
  reader_measure r ≤ fuel →
  (∀ j ch s0, fst (body j ch s0) ≠ Raise OutOfFuel) →
  fst (for_chunks fuel body i r s) ≠ Raise OutOfFuel.
Proof.
  intros Hc Hfuel Hbody. revert i r s Hc Hfuel.
  induction fuel as [|fuel IH]; intros i r s Hc Hfuel.
  { unfold reader_measure in Hfuel. destruct (_first_chunk r); lia. }
  simpl. destruct (reader_next r) as [[e|ch] r'] eqn:Hnext.
  - unfold reader_next in Hnext. rewrite engine_read_cases in Hnext by done.
    repeat case_match; by simplify_eq/=.
  - unfold mbind, M_bind, emit. simpl.
    specialize (Hbody i ch
      (mkState (database s) (conn s) (pbar_n s)
               (EvChunk i (length (rows ch)) :: log s))).
    destruct (body i ch _) as [[[]|e] s1]; [|done].
    apply IH.
    + by apply reader_next_columns in Hnext as (_ & _ & ->).
    + unfold reader_next in Hnext. rewrite engine_read_cases in Hnext by done.
      unfold reader_measure in *.
      destruct (pending r) as [|x xs] eqn:Hpend;
        repeat case_match; simplify_eq/=; try lia;
        rewrite length_drop; simpl; lia.
Qed.

(** No run ends on the iteration bound of the model: [enough_fuel] is
    enough. *)
Lemma import_never_out_of_fuel env import_file db t c :
  fst (import_with_progress env import_file db t c) ≠ FAILED OutOfFuel.
Proof.
  unfold import_with_progress. rewrite import_body_cases.
  destruct import_file as [f|]; [|done].
  destruct (connect_fails env); [done|]. simpl.
  destruct (read_csv_nrows f _ 1000) as [e|fc] eqn:Hsample.
  { unfold read_csv_nrows, parse_header, engine_read in Hsample.
    repeat case_match; by simplify_eq/=. }
  destruct (drop_fails env); [done|].
  unfold mbind at 1, M_bind at 1.
  destruct (load_chunks _ _ _ _ _ _ _) as [[[]|e] s1] eqn:Hload.
  - pose proof (count_and_index_result env t fc s1) as Hres.
    destruct (count_and_index env t fc s1) as [[n|e] s2]; [done|].
    simpl in *. unfold execute_select_count, select_count in Hres.
    unfold_prims. repeat case_match; by simplify_eq/=.
  - simpl. intros [= ->].
    unfold load_chunks, pd_read_csv_chunks, read_csv_chunks in Hload.
    destruct (decide (c < 1)%Z); [by inversion Hload|].
    destruct (parse_header f _) as [e|[names0 data]] eqn:Hp.
    { unfold parse_header in Hp. repeat case_match; simplify_eq.
      all: by inversion Hload. }
    cbv [lift raise mbind M_bind mret M_ret] in Hload.
    apply (f_equal fst) in Hload. revert Hload.
    apply for_chunks_fuel;
      [simpl; lia|unfold reader_measure, enough_fuel; simpl; lia|].
    intros j ch s0. clear. unfold_prims. unfold to_sql. simpl.
    repeat (case_match; simplify_eq/=); done.
Qed.

(** ** Sample runs, checked by evaluation *)

Lemma drop_before_chunks_witness :
  let s := snd (import_with_progress quiet (Some ex_file)
                  {[ "t"%string := old_table ]} "t" 0) in
  EvDropTable ∈ trace s ∧
  (∀ db', drop_table "t" db' = drop_table "t" {[ "t"%string := old_table ]} →
          import_with_progress quiet (Some ex_file) db' "t" 0 =
          import_with_progress quiet (Some ex_file)
            {[ "t"%string := old_table ]} "t" 0) ∧
  (nothing_written (trace s) → database s !! "t"%string = None).
Proof.
  eapply (proj2 (drop_before_chunks quiet (Some ex_file)
                   {[ "t"%string := old_table ]} "t" 0) ex_file);
    reflexivity.
Defined.


(** The sample file in chunks of two: three chunks, five rows, indexes
    on the two numeric columns among the first three. *)
Example ex_file_run :
  let run := import_with_progress quiet (Some ex_file) ∅ "t" 2 in
  fst run = DONE 5 ∧
  trace (snd run) =
    [EvConnect; EvDropTable; EvCommit; EvTqdm 40;
     EvChunk 0 2; EvToSql 0 Replace; EvUpdate 40; EvCommit;
     EvChunk 1 2; EvToSql 1 Append; EvUpdate 40; EvCommit;
     EvChunk 2 1; EvToSql 2 Append; EvUpdate 40; EvCommit;
     EvCreateIndex "id"; EvCreateIndex "amount"; EvCommit; EvClose] ∧
  (tbl_indexes <$> database (snd run) !! "t"%string)
    = Some [("idx_t_id", "id"); ("idx_t_amount", "amount")]%string.
Proof. by vm_compute. Qed.

(** Run twice, the table holds five rows each time, not ten. *)
Example ex_file_rerun :
  let run1 := import_with_progress quiet (Some ex_file) ∅ "t" 2 in
  let run2 :=
    import_with_progress quiet (Some ex_file) (database (snd run1)) "t" 2 in
  row_count_of (database (snd run1)) "t" = Some 5 ∧
  row_count_of (database (snd run2)) "t" = Some 5.
Proof. by vm_compute. Qed.

(** A missing input file: nothing is opened, nothing is touched. *)
Example missing_file_run :
  import_with_progress quiet None {[ "t"%string := old_table ]} "t" 2
  = (FAILED FileNotFoundError, initial {[ "t"%string := old_table ]}).
Proof. reflexivity. Qed.

(** A tab in the header line selects the tab separator. *)
Example detect_sep_samples :
  detect_sep (String "a" (String tab "b")) = tab ∧
  detect_sep "a,b" = comma ∧
  detect_sep "" = comma.
Proof. by vm_compute. Qed.

(** * Further properties of the run *)

(** ** What a run leaves alone *)

(** X1. A run that does not get as far as the [DROP TABLE] (the input
    file is missing, the connection cannot be opened, or the sample of
    the first 1000 records does not parse) ends FAILED and leaves the
    database exactly as it found it. With a missing file it does not even
    connect. *)
Theorem no_drop_no_change env import_file db t c :
  let run := import_with_progress env import_file db t c in
  (import_file = None → run = (FAILED FileNotFoundError, initial db)) ∧
  (EvDropTable ∉ trace (snd run) →
   database (snd run) = db ∧ ∃ e, fst run = FAILED e).
Proof.
  simpl. unfold import_with_progress. rewrite import_body_cases.
  destruct import_file as [f|]; [|by split; [|split; [|eexists]]].
  split; [done|].
  destruct (connect_fails env); [by split; [|eexists]|]. simpl.
  destruct (read_csv_nrows f _ 1000) as [e|fc]; [by split; [|eexists]|].
  destruct (drop_fails env); [by split; [|eexists]|].
  intros Hno. exfalso. apply Hno.
  set (size := Z.of_N (st_size f)). set (sep := detect_sep (first_line f)).
  destruct (extends_load_and_index (log (at_load db t size)) env (Some f) t
              sep c size fc (at_load db t size) (ex_intro _ [] eq_refl))
    as [l Hlog].
  destruct ((load_chunks _ _ _ _ _ _ ;; count_and_index _ _ _) _) as [r s1].
  simpl in *. unfold trace.
  apply list_elem_of_In, in_rev. rewrite rev_involutive.
  apply list_elem_of_In.
  assert (EvDropTable ∈ log s1) as Hin.
  { rewrite Hlog. apply elem_of_app. right. do 2 right.
    apply list_elem_of_here. }
  unfold finally_close. destruct (conn s1); simpl; [done| |done].
  by right.
Qed.

Lemma no_drop_no_change_witness :
  database (snd (import_with_progress quiet (Some ragged_file)
                   {[ "t"%string := old_table ]} "t" 2))
    = {[ "t"%string := old_table ]} ∧
  ∃ e, fst (import_with_progress quiet (Some ragged_file)
              {[ "t"%string := old_table ]} "t" 2) = FAILED e.
Proof.
  apply (proj2 (no_drop_no_change quiet (Some ragged_file)
                  {[ "t"%string := old_table ]} "t" 2)).
  vm_compute. intros H.
  repeat (apply elem_of_cons in H as [H|H]; [discriminate|]).
  by apply elem_of_nil in H.
Defined.

(** ** A chunk size below 1 *)



(** ** A failed run builds no index *)

(** X4. When a run that got past schema sampling and whose [DROP TABLE]
    did not fail ends FAILED, the destination table, if there is one,
    carries no index: indexing starts only once the row count has been
    read. *)
Theorem failed_run_has_no_index env f db t c first_chunk e :
  connect_fails env = false →
  drop_fails env = false →
  read_csv_nrows f (detect_sep (first_line f)) 1000 = inr first_chunk →
  fst (import_with_progress env (Some f) db t c) = FAILED e →
  ∀ tb,
    database (snd (import_with_progress env (Some f) db t c)) !! t = Some tb →
    tbl_indexes tb = [].
Proof.
  intros Hconn Hdrop Hsample.
  rewrite (import_after_sampling _ _ _ _ _ _ Hconn Hdrop Hsample).
  set (size := Z.of_N (st_size f)). set (sep := detect_sep (first_line f)) in *.
  destruct (parse_header f sep) as [e0|[names0 data]] eqn:Hp.
  { unfold read_csv_nrows in Hsample. by rewrite Hp in Hsample. }
  pose proof (fresh_table_load_chunks env f t sep c size names0 data Hp
                (at_load db t size)) as Hfresh.
  assert (fresh_table t names0 (at_load db t size)) as Hfresh0.
  { left. unfold at_load, drop_table. simpl. apply lookup_delete_eq. }
  specialize (Hfresh Hfresh0).
  unfold mbind, M_bind.
  destruct (load_chunks env (Some f) t sep c size (at_load db t size))
    as [[[]|e1] s1]; simpl in Hfresh.
  - pose proof (count_and_index_result env t first_chunk s1) as Hres.
    destruct (count_and_index env t first_chunk s1) as [r2 s2] eqn:Hci.
    simpl in Hres. subst r2. simpl.
    destruct (execute_select_count env t s1) as [[n|e2] s3] eqn:Hcnt;
      [done|].
    simpl. intros _ tb. rewrite database_finally_close.
    assert (s3 = s1) as ->.
    { clear Hci. unfold execute_select_count in Hcnt. unfold_prims.
      repeat case_match; by simplify_eq/=. }
    unfold count_and_index, mbind, M_bind in Hci. rewrite Hcnt in Hci.
    simplify_eq.
    intros Htb. destruct Hfresh as [Hnone|(tb' & Htb' & _ & Hidx)];
      congruence.
  - simpl. intros _ tb. rewrite database_finally_close. intros Htb.
    destruct Hfresh as [Hnone|(tb' & Htb' & _ & Hidx)]; congruence.
Qed.

Lemma failed_run_has_no_index_witness :
  ∃ tb,
    database (snd (import_with_progress quiet (Some late_ragged_file) ∅ "t" 500))
      !! "t"%string = Some tb ∧
    tbl_indexes tb = [].
Proof.
  eexists. split; [by vm_compute|].
  eapply (failed_run_has_no_index quiet late_ragged_file ∅ "t" 500);
    by vm_compute.
Defined.

(** ** Runs that reach DONE *)

(** A reader that ends on [StopIteration] met no record with more fields
    than expected, and yielded at least its first chunk. *)
Lemma drain_stop fuel r cs :
  1 ≤ chunksize r →
  drain fuel r = (cs, StopIteration) →
  Forall (λ x, length x ≤ width r) (pending r) ∧ (_first_chunk r → cs ≠ []).
Proof.
  revert r cs. induction fuel as [|fuel IH]; intros [nm w c fl data] cs Hc;
    [done|].
  simpl in *. unfold reader_next. simpl. rewrite engine_read_cases by done.
  destruct data as [|x data].
  - destruct fl; [|by intros [= <-]].
    destruct (drain fuel _) as [cs' e]. by intros [= <- ->].
  - set (data' := x :: data) in *.
    destruct (forallb _ (take c data')) eqn:Hfit; [|done].
    specialize (IH (mkReader nm w c false (drop c data'))).
    destruct (drain fuel _) as [cs' e]. intros [= <- ->].
    destruct (IH cs' Hc eq_refl) as [Hrest _]. simpl in Hrest.
    split; [|done]. rewrite <- (take_drop c data'). apply Forall_app.
    split; [|done]. apply Is_true_true, forallb_True in Hfit.
    eapply Forall_impl; [exact Hfit|]. intros y Hy.
    by apply bool_decide_unpack in Hy.
Qed.


Lemma process_chunk_inv env t c size i ch s s1 :
  process_chunk env t c size i ch s = (Ok tt, s1) →
  to_sql_fails env i = false ∧
  pbar_n s1 = (pbar_n s + Z.min (progress_step c (columns ch))
                                (size - pbar_n s))%Z.
Proof.
  unfold progress_step. unfold_prims. intros H. simpl in H.
  destruct (to_sql_fails env i).
  - simpl in H. destruct (to_sql _ t _ (database s)); by simplify_eq/=.
  - simpl in H. destruct (to_sql ch t _ (database s)); by simplify_eq/=.
Qed.

Lemma process_chunk_env env t c size i ch s :
  to_sql_fails env i = false →
  process_chunk env t c size i ch s =
  process_chunk (no_write_faults env) t c size i ch s.
Proof. intros H. unfold_prims. by rewrite H. Qed.

(** A loop that ends well met no refused write: it ran as it would have
    with every write accepted. *)
Lemma write_all_ok_inv env t c size i cs e s s' :
  write_all (process_chunk env t c size) i cs e s = (Ok tt, s') →
  e = StopIteration ∧
  write_all (process_chunk (no_write_faults env) t c size) i cs e s
    = (Ok tt, s').
Proof.
  revert i s. induction cs as [|ch cs IH]; intros i s Hrun.
  - by destruct e.
  - simpl in Hrun. unfold mbind, M_bind, emit in Hrun. simpl in Hrun.
    destruct (process_chunk env t c size i ch _) as [[[]|x] s1] eqn:Hp;
      [|done].
    destruct (process_chunk_inv _ _ _ _ _ _ _ _ Hp) as [Hw _].
    rewrite (process_chunk_env _ _ _ _ _ _ _ Hw) in Hp.
    rewrite (write_all_cons _ _ _ _ _ _ _ Hp). by apply IH.
Qed.

(** The bar after a loop that ends well. *)
Lemma write_all_ok_pbar env t c size names0 i cs e s s' :
  write_all (process_chunk env t c size) i cs e s = (Ok tt, s') →
  Forall (λ ch, columns ch = names0) cs →
  (0 ≤ progress_step c names0)%Z →
  (0 ≤ pbar_n s ≤ size)%Z →
  pbar_n s' =
    Z.min size (pbar_n s + Z.of_nat (length cs) * progress_step c names0)%Z.
Proof.
  intros Hrun Hcols Hstep. revert i s Hrun.
  induction Hcols as [|ch cs Hch _ IH]; intros i s Hrun Hn.
  - destruct e; try done. injection Hrun as <-.
    change (length (@nil DataFrame)) with 0. lia.
  - simpl in Hrun. unfold mbind, M_bind, emit in Hrun. simpl in Hrun.
    destruct (process_chunk env t c size i ch _) as [[[]|x] s1] eqn:Hp;
      [|done].
    destruct (process_chunk_inv _ _ _ _ _ _ _ _ Hp) as [_ Hn1].
    simpl in Hn1. rewrite Hch in Hn1.
    rewrite (IH _ _ Hrun) by lia. rewrite Hn1.
    rewrite length_cons, Nat2Z.inj_succ. nia.
Qed.

(** The loop of a run that gets through it. *)
Lemma load_chunks_ok_inv env f t sep c size names0 data s s1 :
  parse_header f sep = inr (names0, data) →
  load_chunks env (Some f) t sep c size s = (Ok tt, s1) →
  database s !! t = None →
  (0 ≤ pbar_n s ≤ size)%Z →
  (1 ≤ c)%Z ∧
  Forall (λ x, length x ≤ expected_fields names0 data) data ∧
  database s1 !! t
    = Some (mkTable names0
              (frame_row names0 (expected_fields names0 data) <$> data) []) ∧
  pbar_n s1 =
    Z.min size
      (pbar_n s +
       Z.of_nat (max 1 (ceil_div (length data) (Z.to_nat c)))
       * progress_step c names0)%Z.
Proof.
  intros Hp Hload Hdb Hn.
  unfold load_chunks, pd_read_csv_chunks, read_csv_chunks in Hload.
  rewrite Hp in Hload. destruct (decide (c < 1)%Z) as [|Hc]; [done|].
  cbv [lift raise mbind M_bind mret M_ret] in Hload.
  rewrite for_chunks_drain in Hload.
  set (w := expected_fields names0 data) in *.
  set (r := mkReader names0 w (Z.to_nat c) true data) in *.
  destruct (drain (enough_fuel r) r) as [cs e] eqn:Hd. simpl in Hload.
  pose proof (drain_columns (enough_fuel r) r) as Hcols.
  rewrite Hd in Hcols. simpl in Hcols.
  destruct (write_all_ok_inv _ _ _ _ _ _ _ _ _ Hload) as [-> Hload'].
  destruct (drain_stop (enough_fuel r) r cs) as [Hfit Hne];
    [unfold r; simpl; lia|done|].
  simpl in Hfit.
  destruct (drain_fits (enough_fuel r) names0 w (Z.to_nat c) true data)
    as (cs' & Hd' & Hrows & _ & Hlen);
    [lia|done|unfold enough_fuel, r; simpl; lia|].
  fold r in Hd'. rewrite Hd in Hd'. simplify_eq.
  assert (length cs' = max 1 (ceil_div (length data) (Z.to_nat c))) as Hlen'.
  { rewrite Hlen. simpl. case_bool_decide as Hnil.
    - subst data. simpl. unfold ceil_div. rewrite Nat.div_small; lia.
    - destruct data; [done|]. rewrite ceil_div_pred; simpl; lia. }
  destruct (write_all_fresh (no_write_faults env) t c size names0 cs'
              StopIteration s) as (s' & Hrun & Hdb'); [done..|].
  rewrite Hload' in Hrun. simplify_eq.
  split; [lia|]. split; [done|]. split.
  - rewrite Hdb'. destruct cs' as [|ch cs']; [by destruct Hne|].
    unfold table_of. by rewrite Hrows.
  - rewrite <- Hlen'. apply (write_all_ok_pbar env t c size names0 0 cs'
      StopIteration s s' Hload Hcols); [|done].
    unfold progress_step. lia.
Qed.

Lemma pbar_n_finally_close s : pbar_n (finally_close s) = pbar_n s.
Proof. unfold finally_close. by destruct (conn s). Qed.

Lemma pbar_n_create_indexes env t fc v :
  preserves (λ s, pbar_n s = v) (create_indexes env t fc).
Proof.
  unfold create_indexes. apply preserves_try.
  - apply preserves_bind.
    + apply preserves_index_columns. intros col _ _ s Hs.
      unfold_prims. simpl. repeat case_match; simplify_eq/=; done.
    + by intros _ s Hs.
  - by intros _ s Hs.
Qed.

(** What a run that reports a row count went through, in full. *)
Lemma done_inversion_rows env f db t c n names0 data :
  fst (import_with_progress env (Some f) db t c) = DONE n →
  parse_header f (detect_sep (first_line f)) = inr (names0, data) →
  (1 ≤ c)%Z ∧
  Forall (λ x, length x ≤ expected_fields names0 data) data ∧
  n = length data ∧
  table_holds t names0
    (frame_row names0 (expected_fields names0 data) <$> data)
    (snd (import_with_progress env (Some f) db t c)) ∧
  pbar_n (snd (import_with_progress env (Some f) db t c)) =
    Z.min (Z.of_N (st_size f))
      (Z.of_nat (max 1 (ceil_div (length data) (Z.to_nat c)))
       * progress_step c names0)%Z.
Proof.
  unfold import_with_progress. rewrite import_body_cases.
  destruct (connect_fails env); [done|]. simpl.
  destruct (read_csv_nrows f _ 1000) as [e|fc] eqn:Hsample; [done|].
  destruct (drop_fails env); [done|].
  set (sep := detect_sep (first_line f)) in *.
  set (size := Z.of_N (st_size f)). intros Hdone Hp.
  unfold mbind, M_bind in Hdone |- *.
  destruct (load_chunks env (Some f) t sep c size (at_load db t size))
    as [[[]|e] s1] eqn:Hload; [|done].
  destruct (load_chunks_ok_inv env f t sep c size names0 data _ _ Hp Hload)
    as (Hc & Hfit & Hdb1 & Hn1).
  { unfold drop_table. simpl. apply lookup_delete_eq. }
  { simpl. lia. }
  destruct (count_fails env) eqn:Hcount.
  { unfold count_and_index, execute_select_count in Hdone.
    by rewrite Hcount in Hdone. }
  destruct (count_and_index_run env t fc s1 _ Hcount Hdb1)
    as (s2 & Hrun & Hs2 & Hholds).
  rewrite Hrun in Hdone |- *. simpl in *. rewrite length_fmap in Hdone.
  simplify_eq. split; [done|]. split; [done|]. split; [done|]. split.
  - unfold table_holds in *. by rewrite database_finally_close.
  - rewrite pbar_n_finally_close.
    rewrite (pbar_n_create_indexes env t fc (pbar_n s1) s1 eq_refl).
    rewrite Hn1. simpl. by rewrite Z.add_0_l.
Qed.

(** ** Re-running the import *)

(** C4. A second run with the same input and the same table name ends
    like the first and leaves the database as the first run left it: in
    particular the destination table has the same row count after each
    run.  When the first run reaches DONE, the table holds after each of
    the two runs the data rows of the file, once: the row count is the
    number R of data rows both times, not 2R after the second. *)
Theorem rerun_same_table env import_file db t c :
  let run1 := import_with_progress env import_file db t c in
  let run2 := import_with_progress env import_file (database (snd run1)) t c in
  fst run2 = fst run1 ∧
  database (snd run2) = database (snd run1) ∧
  row_count_of (database (snd run2)) t = row_count_of (database (snd run1)) t ∧
  ∀ n f names0 data,
    fst run1 = DONE n →
    import_file = Some f →
    parse_header f (detect_sep (first_line f)) = inr (names0, data) →
    n = length data ∧
    row_count_of (database (snd run1)) t = Some (length data) ∧
    row_count_of (database (snd run2)) t = Some (length data) ∧
    ∃ tb, database (snd run2) !! t = Some tb ∧
          tbl_rows tb
          = frame_row names0 (expected_fields names0 data) <$> data.
Proof.
  simpl.
  assert (let run1 := import_with_progress env import_file db t c in
          let run2 :=
            import_with_progress env import_file (database (snd run1)) t c in
          fst run2 = fst run1 ∧ database (snd run2) = database (snd run1))
    as [Hfst Hdb].
  { unfold import_with_progress. rewrite !import_body_cases.
    destruct import_file as [f|]; [|done].
    destruct (connect_fails env); [done|]. simpl.
    destruct (read_csv_nrows f _ 1000) as [e|fc]; [done|].
    destruct (drop_fails env); [done|].
    set (size := Z.of_N (st_size f)). set (sep := detect_sep (first_line f)).
    set (m := load_chunks env (Some f) t sep c size ;;
              count_and_index env t fc).
    destruct (m (at_load db t size)) as [r1 s1] eqn:E1. simpl.
    rewrite database_finally_close.
    assert (at_load (database s1) t size = at_load db t size) as ->.
    { unfold at_load. f_equal. apply map_eq. intros k. unfold drop_table.
      destruct (decide (k = t)) as [->|Hk]; [by rewrite !lookup_delete_eq|].
      rewrite !lookup_delete_ne by done.
      pose proof (frame_load_and_index k (db !! k) env (Some f) t sep c
                    size fc Hk (at_load db t size)) as H2.
      fold m in H2. rewrite E1 in H2. apply H2.
      unfold at_load, drop_table. simpl. by rewrite lookup_delete_ne. }
    rewrite E1. simpl. by rewrite ?database_finally_close. }
  simpl in Hfst, Hdb.
  split; [done|]. split; [done|]. split; [by rewrite Hdb|].
  intros n f names0 data Hdone -> Hp.
  destruct (done_inversion_rows env f db t c n names0 data Hdone Hp)
    as (_ & _ & Hn & (tb & Htb & _ & Hrows) & _).
  assert (row_count_of
            (database (snd (import_with_progress env (Some f) db t c))) t
          = Some (length data)) as Hcount.
  { unfold row_count_of. rewrite Htb. simpl. by rewrite Hrows, length_fmap. }
  split; [done|]. split; [done|]. rewrite Hdb. split; [done|].
  by exists tb.
Qed.

Lemma rerun_same_table_witness :
  let run1 := import_with_progress quiet (Some ex_file) ∅ "t" 2 in
  let run2 :=
    import_with_progress quiet (Some ex_file) (database (snd run1)) "t" 2 in
  row_count_of (database (snd run1)) "t" = Some 5 ∧
  row_count_of (database (snd run2)) "t" = Some 5.
Proof.
  destruct (rerun_same_table quiet (Some ex_file) ∅ "t" 2)
    as (_ & _ & _ & H).
  destruct (H 5 ex_file ["id"; "amount"; "name"]%string
              (tl (tokenize ex_file comma))
              ltac:(by vm_compute) eq_refl eq_refl) as (_ & H1 & H2 & _).
  split; [exact H1|exact H2].
Defined.

(** X5. A run that reaches DONE, on a file whose header names are
    distinct and not empty, has imported the whole file: the chunk size
    was at least 1, no data row had more fields than expected (as many as
    the header has names, or as the first data row has fields when it has
    more), the row count it reports is the number of data rows of the
    file, and the destination table holds the header's columns and every
    data row, in file order, short rows completed with missing values
    and the fields of an implicit index left out. *)
Theorem done_imports_every_row env f db t c n names0 data :
  fst (import_with_progress env (Some f) db t c) = DONE n →
  parse_header f (detect_sep (first_line f)) = inr (names0, data) →
  plain_header names0 →
  (1 ≤ c)%Z ∧
  Forall (λ x, length x ≤ expected_fields names0 data) data ∧
  n = length data ∧
  table_holds t names0
    (frame_row names0 (expected_fields names0 data) <$> data)
    (snd (import_with_progress env (Some f) db t c)).
Proof.
  intros Hdone Hp _.
  destruct (done_inversion_rows env f db t c n names0 data Hdone Hp)
    as (? & ? & ? & ? & _).
  done.
Qed.

Lemma done_imports_every_row_witness :
  (1 ≤ 2)%Z ∧
  Forall (λ x, length x ≤ 4)
    [ ["7"; "1"; "10"; "ann"]; ["8"; "2"; "20"] ]%string ∧
  2 = length [ ["7"; "1"; "10"; "ann"]; ["8"; "2"; "20"] ]%string ∧
  table_holds "t" ["id"; "amount"; "name"]%string
    [ [Some "1"; Some "10"; Some "ann"]; [Some "2"; Some "20"; None] ]%string
    (snd (import_with_progress quiet (Some indexed_file) ∅ "t" 2)).
Proof.
  assert (plain_header ["id"; "amount"; "name"]%string) as Hplain.
  { split; [repeat constructor; set_solver|set_solver]. }
  apply (done_imports_every_row quiet indexed_file ∅ "t" 2 2
           ["id"; "amount"; "name"]%string
           [ ["7"; "1"; "10"; "ann"]; ["8"; "2"; "20"] ]%string);
    [by vm_compute|reflexivity|exact Hplain].
Defined.

(** ** Where the progress bar ends *)

Lemma last_progress_load_and_index env import_file t sep c size fc :
  preserves (λ s, last (progress_values (rev (log s))) = Some (pbar_n s))
    (load_chunks env import_file t sep c size ;; count_and_index env t fc).
Proof.
  apply preserves_load_and_index; intros; intros [db0 cn0 n0 l0] Hs;
    unfold_prims; simpl in *; repeat case_match; simplify_eq/=;
    rewrite ?progress_values_snoc; simpl; rewrite ?app_nil_r, ?last_snoc;
    done.
Qed.

(** X6. In a run that reaches DONE the progress bar ends at
    min(file size, N * chunksize * columns * 8), where N is the number of
    chunks, max(1, ceil(R / chunksize)) for R data rows: the bar ends short
    of the file size whenever that product is smaller. *)
Theorem done_progress_value env f db t c n names0 data :
  fst (import_with_progress env (Some f) db t c) = DONE n →
  parse_header f (detect_sep (first_line f)) = inr (names0, data) →
  last (progress_values
          (trace (snd (import_with_progress env (Some f) db t c))))
  = Some (Z.min (Z.of_N (st_size f))
            (Z.of_nat (max 1 (ceil_div (length data) (Z.to_nat c)))
             * (c * Z.of_nat (length names0) * 8)))%Z.
Proof.
  intros Hdone Hp.
  destruct (done_inversion_rows env f db t c n names0 data Hdone Hp)
    as (_ & _ & _ & _ & Hn).
  unfold progress_step in Hn. rewrite <- Hn. clear Hn Hp.
  revert Hdone. unfold import_with_progress. rewrite import_body_cases.
  destruct (connect_fails env); [done|]. simpl.
  destruct (read_csv_nrows f _ 1000) as [e|fc]; [done|].
  destruct (drop_fails env); [done|]. intros _.
  set (size := Z.of_N (st_size f)). set (sep := detect_sep (first_line f)).
  pose proof (last_progress_load_and_index env (Some f) t sep c size fc
                (at_load db t size) eq_refl) as Hlast.
  pose proof (conn_open_load_and_index env (Some f) t sep c size fc
                (at_load db t size) eq_refl) as Hopen.
  destruct ((load_chunks _ _ _ _ _ _ ;; count_and_index _ _ _) _) as [r s1].
  simpl in *. rewrite (finally_close_open s1 Hopen). unfold trace. simpl.
  by rewrite progress_values_snoc, app_nil_r.
Qed.

Lemma done_progress_value_witness :
  last (progress_values
          (trace (snd (import_with_progress quiet
                         (Some (plain_file 1000 "id,amount,name"
                                  (tokenize ex_file comma))) ∅ "t" 2))))
  = Some (Z.min (Z.of_N 1000)
            (Z.of_nat (max 1 (ceil_div 5 (Z.to_nat 2)))
             * (2 * Z.of_nat 3 * 8)))%Z.
Proof.
  apply (done_progress_value quiet
           (plain_file 1000 "id,amount,name" (tokenize ex_file comma))
           ∅ "t" 2 5 ["id"; "amount"; "name"]%string
           [ ["1"; "10"; "ann"]; ["2"; "20"; "bob"]; ["3"; "30"; "cy"];
             ["4"; "40"; "dee"]; ["5"; "50"; "eve"] ]%string);
    reflexivity.
Defined.

(** ** A refused write *)



(** ** What each chunk holds *)

Lemma drain_lookup fuel names0 c fl data j ch :
  1 ≤ c →
  Forall (λ r, fits names0 r) data →
  fst (drain fuel (mkReader names0 (length names0) c fl data)) !! j
    = Some ch →
  rows ch = pad (length names0) <$> take c (drop (j * c) data).
Proof.
  intros Hc. revert fl data j.
  induction fuel as [|fuel IH]; intros fl data j Hfit; [done|].
  simpl. unfold reader_next. simpl. rewrite engine_read_header by done.
  destruct data as [|r data].
  - destruct fl; [|done].
    specialize (IH false [] (pred j)).
    destruct (drain fuel _) as [cs e]. simpl in *.
    destruct j as [|j]; simpl.
    + intros [= <-]. by rewrite ?drop_nil, ?take_nil.
    + intros Hj. rewrite (IH Hfit Hj). by rewrite ?drop_nil.
  - set (data' := r :: data) in *.
    assert (forallb (fits names0) (take c data') = true) as ->.
    { apply Is_true_true, forallb_True, Forall_take, Hfit. }
    specialize (IH false (drop c data') (pred j)).
    destruct (drain fuel _) as [cs e]. simpl in *.
    destruct j as [|j]; simpl.
    + by intros [= <-].
    + intros Hj. rewrite (IH (Forall_drop _ _ _ Hfit) Hj).
      by rewrite drop_drop.
Qed.


Lemma fits_width names0 (data : list (list string)) :
  Forall (λ x, fits names0 x) data →
  Forall (λ x, length x ≤ length names0) data.
Proof.
  intros H. eapply Forall_impl; [exact H|]. intros x Hx.
  by apply bool_decide_unpack in Hx.
Qed.

(** X7. On a file whose header names are distinct and not empty and
    whose data rows have no more fields than the header, chunk number j
    of the reader (counting from 0) holds the records j*C, j*C+1, ... of
    the file, at most C of them, under the header's columns; every chunk
    but the last holds exactly C rows. *)
Theorem chunk_contents f sep (c : Z) names0 data r j ch :
  (0 < c)%Z →
  parse_header f sep = inr (names0, data) →
  plain_header names0 →
  Forall (λ x, fits names0 x) data →
  read_csv_chunks f sep c = inr r →
  fst (chunks_of r) !! j = Some ch →
  columns ch = names0 ∧
  rows ch = pad (length names0)
              <$> take (Z.to_nat c) (drop (j * Z.to_nat c) data) ∧
  (S j < length (fst (chunks_of r)) → length (rows ch) = Z.to_nat c).
Proof.
  intros Hc Hp _ Hfit Hr Hj.
  unfold read_csv_chunks in Hr. rewrite Hp in Hr.
  destruct (decide (c < 1)%Z); [lia|]. simplify_eq.
  rewrite (expected_fields_fits names0 data Hfit) in Hj |- *.
  unfold chunks_of in *.
  set (r := mkReader names0 (length names0) (Z.to_nat c) true data) in *.
  pose proof (drain_columns (enough_fuel r) r) as Hcols.
  rewrite Forall_lookup in Hcols.
  assert (1 ≤ Z.to_nat c) as Hc1 by lia.
  pose proof (drain_lookup (enough_fuel r) names0 (Z.to_nat c) true data j ch
                Hc1 Hfit Hj) as Hrows.
  split; [by apply (Hcols j)|]. split; [done|].
  destruct (drain_fits (enough_fuel r) names0 (length names0) (Z.to_nat c)
              true data)
    as (cs & Hd & _ & _ & Hlen);
    [lia|by apply fits_width|unfold enough_fuel, r; simpl; lia|].
  fold r in Hd. rewrite Hd. simpl. rewrite Hlen. intros Hlt.
  rewrite Hrows, length_fmap, length_take, length_drop.
  destruct (bool_decide (data = [])) eqn:Hnil; simpl in Hlt; [lia|].
  pose proof (ceil_div_spec (length data) (Z.to_nat c) ltac:(lia)) as [_ Hup].
  nia.
Qed.

Lemma chunk_contents_witness :
  ∃ r ch,
    read_csv_chunks ex_file comma 2 = inr r ∧
    fst (chunks_of r) !! 1 = Some ch ∧
    columns ch = ["id"; "amount"; "name"]%string ∧
    rows ch = pad 3 <$> [ ["3"; "30"; "cy"]; ["4"; "40"; "dee"] ]%string ∧
    (2 < length (fst (chunks_of r)) → length (rows ch) = Z.to_nat 2).
Proof.
  assert (plain_header ["id"; "amount"; "name"]%string) as Hplain.
  { split; [repeat constructor; set_solver|set_solver]. }
  eexists _, _. split; [reflexivity|]. split; [reflexivity|].
  refine (chunk_contents ex_file comma 2 ["id"; "amount"; "name"]%string
            [ ["1"; "10"; "ann"]; ["2"; "20"; "bob"]; ["3"; "30"; "cy"];
              ["4"; "40"; "dee"]; ["5"; "50"; "eve"] ]%string _ 1 _
            _ eq_refl Hplain _ eq_refl eq_refl).
  - lia.
  - repeat constructor.
Defined.

(** ** A write that the database refuses *)


